(** * The review/revise workflow of codereview.py and the helpers of
      OrigCode.py

    The second half of the definitions embeds the list, dictionary and
    text helpers of [src/OrigCode.py] ([process_data], [validate_email],
    [remove_duplicates], [group_data_by_attribute]) over abstract Python
    values.  The first half is
    a shallow embedding of [src/codereview.py]: the state dictionary
    [GraphState], the prompt templates, the three node handlers
    ([handle_reviewer], [handle_coder], [handle_result]), the routing
    function [deployment_ready], the graph executor that [workflow.compile()]
    builds from the declared nodes and edges, and the module-level script.

    Effects are explicit.  The hosted model behind [llm] is an oracle that
    sees the prompts submitted so far and the current prompt and either
    answers or fails; the world records the prompts submitted, the values
    printed and the nodes executed.  A key of the state dictionary that has
    never been written is absent, so [state.get(key, '')] reads it as the
    empty string and [state.get(key)] as [None].  The recursion limit
    bounds the number of node executions of one [invoke]: a run of [n] of
    them needs a limit above [n]. *)

From Stdlib Require Import String Ascii List ZArith Lia Bool Arith.
Import ListNotations.
Open Scope list_scope.
Open Scope string_scope.
Open Scope Z_scope.

(** ** Python strings *)

Module PyStr.

(** Strings are sequences of code points below 256; [nl] is the character
    written [\n] in the source. *)
Definition nl : string := String (ascii_of_nat 10) EmptyString.

(** [str.isspace] on one code point below 256. *)
Definition isspace (c : ascii) : bool :=
  let n := nat_of_ascii c in
  ((9 <=? n) && (n <=? 13) || (28 <=? n) && (n <=? 32)
   || (n =? 133) || (n =? 160))%nat.

Fixpoint lstrip (s : string) : string :=
  match s with
  | EmptyString => EmptyString
  | String c r => if isspace c then lstrip r else s
  end.

Fixpoint rstrip (s : string) : string :=
  match s with
  | EmptyString => EmptyString
  | String c r =>
      match rstrip r with
      | EmptyString => if isspace c then EmptyString else String c EmptyString
      | r' => String c r'
      end
  end.

(** [s.strip()] *)
Definition strip (s : string) : string := rstrip (lstrip s).

(** [pat in s] *)
Fixpoint contains (pat s : string) : bool :=
  String.prefix pat s ||
  match s with
  | EmptyString => false
  | String _ r => contains pat r
  end.

(** [str(x)] of a value that is a string or [None]. *)
Definition str_of (o : option string) : string :=
  match o with
  | Some s => s
  | None => "None"
  end.

(** [t.format(a1, ..., an)] for a template whose only replacement fields are
    [{}]: each field takes the next argument; too few arguments is an
    error ([None]), surplus arguments are ignored. *)
Fixpoint format (t : string) (args : list string) : option string :=
  match t with
  | EmptyString => Some EmptyString
  | String "{" (String "}" rest) =>
      match args with
      | [] => None
      | a :: args' => option_map (append a) (format rest args')
      end
  | String c rest => option_map (String c) (format rest args)
  end.

End PyStr.
Import PyStr.

(** ** The state dictionary *)

(** [GraphState]: every key is optional; [None] is an absent key.  These
    are the states in which no key holds Python's [None]; the states in
    which a key may hold it are [StoredState] below, where the handlers are
    given again and agree with the ones on [GraphState]. *)
Record GraphState : Type := mkState {
  feedback : option string;
  history : option string;
  code : option string;
  specialization : option string;
  rating : option string;
  iterations : option Z;
  code_compare : option string;
  actual_code : option string
}.

(** [state.get(key, '')] *)
Definition get_or_empty (o : option string) : string :=
  match o with
  | Some s => s
  | None => ""
  end.

Definition override {A : Type} (old new : option A) : option A :=
  match new with
  | Some v => Some v
  | None => old
  end.

(** The executor writes the keys of the dictionary a node returns over the
    state and leaves the other keys as they were. *)
Definition merge (st upd : GraphState) : GraphState :=
  {| feedback := override (feedback st) (feedback upd);
     history := override (history st) (history upd);
     code := override (code st) (code upd);
     specialization := override (specialization st) (specialization upd);
     rating := override (rating st) (rating upd);
     iterations := override (iterations st) (iterations upd);
     code_compare := override (code_compare st) (code_compare upd);
     actual_code := override (actual_code st) (actual_code upd) |}.

(** ** Effects *)

Inductive node : Type := handle_reviewer_node | handle_coder_node | handle_result_node.

Definition node_eqb (a b : node) : bool :=
  match a, b with
  | handle_reviewer_node, handle_reviewer_node => true
  | handle_coder_node, handle_coder_node => true
  | handle_result_node, handle_result_node => true
  | _, _ => false
  end.

Inductive exn : Type :=
| TypeError
| AttributeError
| KeyError
| IndexError
| GeneratorInvocationError
| GraphRecursionError.

Record World : Type := mkWorld {
  prompts : list string;   (* prompts passed to [llm], oldest first *)
  stdout : list string;    (* values printed, oldest first *)
  steps : list node        (* nodes the executor has started, oldest first *)
}.

Definition init_world : World := mkWorld [] [] [].

Definition M (A : Type) : Type := World -> (exn + A) * World.

Definition ret {A : Type} (a : A) : M A := fun w => (inr a, w).

Definition raise {A : Type} (e : exn) : M A := fun w => (inl e, w).

Definition bind {A B : Type} (c : M A) (k : A -> M B) : M B :=
  fun w =>
    match c w with
    | (inr a, w') => k a w'
    | (inl e, w') => (inl e, w')
    end.

Notation "x <- c ;; k" := (bind c (fun x => k))
  (at level 61, c at next level, right associativity).
Notation "c ;;; k" := (bind c (fun _ => k))
  (at level 61, right associativity).

Definition print (s : string) : M unit :=
  fun w => (inr tt, mkWorld (prompts w) (stdout w ++ [s])%list (steps w)).

Definition log_step (n : node) : M unit :=
  fun w => (inr tt, mkWorld (prompts w) (stdout w) (steps w ++ [n])%list).

Definition fmt (t : string) (args : list string) : M string :=
  match format t args with
  | Some s => ret s
  | None => raise IndexError
  end.

(** [d[key]] *)
Definition getitem {A : Type} (o : option A) : M A :=
  match o with
  | Some v => ret v
  | None => raise KeyError
  end.

(** ** Prompt templates (a backslash at the end of a source line joins the
    next line to it without a separator) *)

Definition reviewer_start : string :=
  "You are Code reviewer specialized in {}." ++
  "You need to review the given code following PEP8 guidelines and potential bugs" ++
  "and point out issues as bullet list." ++
  "Code:" ++ nl ++ " {}".

Definition coder_start : string :=
  "You are a Coder specialized in {}." ++
  "Improve the given code given the following guidelines. Guideline:" ++ nl ++ " {} " ++ nl ++ " " ++
  "Code:" ++ nl ++ " {} " ++ nl ++ " " ++
  "Output just the improved code and nothing else.".

Definition rating_start : string :=
  "Rate the skills of the coder on a scale of 10 given the Code review cycle with a short reason." ++
  "Code review:" ++ nl ++ " {} " ++ nl ++ " ".

Definition code_comparison : string :=
  "Compare the two code snippets and rate on a scale of 10 to both. Dont output the codes.Revised Code: "
  ++ nl ++ " {} " ++ nl ++ " Actual Code: " ++ nl ++ " {}".

Definition classify_feedback : string :=
  "Are all feedback mentioned resolved in the code? Output just Yes or No." ++
  "Code: " ++ nl ++ " {} " ++ nl ++ " Feedback: " ++ nl ++ " {} " ++ nl.

Definition problem : string :=
  "Generate code to train a Regression ML model using a tabular dataset following required preprocessing steps.".

(** ** Node handlers, routing and the executor *)

Section Workflow.

(** The hosted model: given the prompts already submitted and the current
    prompt, a response, or [None] when the invocation fails. *)
Variable gen : list string -> string -> option string.

Definition llm (x : string) : M string :=
  fun w =>
    let w' := mkWorld (prompts w ++ [x])%list (stdout w) (steps w) in
    match gen (prompts w) x with
    | Some r => (inr r, w')
    | None => (inl GeneratorInvocationError, w')
    end.

(** [iterations + 1] where [iterations] may be [None] *)
Definition add_one (o : option Z) : M Z :=
  match o with
  | Some i => ret (i + 1)
  | None => raise TypeError
  end.

(** [iterations > 5] where [iterations] may be [None] *)
Definition gt_five (o : option Z) : M bool :=
  match o with
  | Some i => ret (i >? 5)
  | None => raise TypeError
  end.

Definition handle_reviewer (state : GraphState) : M GraphState :=
  let history' := strip (get_or_empty (history state)) in
  let code' := strip (get_or_empty (code state)) in
  let specialization' := strip (get_or_empty (specialization state)) in
  let iterations' := iterations state in
  print "Reviewer working..." ;;;
  p <- fmt reviewer_start [specialization'; code'] ;;
  feedback' <- llm p ;;
  n <- add_one iterations' ;;
  ret {| history := Some (history' ++ nl ++ " REVIEWER:" ++ nl ++ feedback');
         feedback := Some feedback';
         iterations := Some n;
         code := None; specialization := None; rating := None;
         code_compare := None; actual_code := None |}.

Definition handle_coder (state : GraphState) : M GraphState :=
  let history' := strip (get_or_empty (history state)) in
  let feedback' := strip (get_or_empty (feedback state)) in
  let code' := strip (get_or_empty (code state)) in
  let specialization' := strip (get_or_empty (specialization state)) in
  print "CODER rewriting..." ;;;
  p <- fmt coder_start [specialization'; feedback'; code'] ;;
  code'' <- llm p ;;
  ret {| history := Some (history' ++ nl ++ " CODER:" ++ nl ++ code'');
         code := Some code'';
         feedback := None; specialization := None; rating := None;
         iterations := None; code_compare := None; actual_code := None |}.

Definition handle_result (state : GraphState) : M GraphState :=
  print "Review done..." ;;;
  let history' := strip (get_or_empty (history state)) in
  let code1 := strip (get_or_empty (code state)) in
  let code2 := strip (get_or_empty (actual_code state)) in
  p1 <- fmt rating_start [history'] ;;
  rating' <- llm p1 ;;
  p2 <- fmt code_comparison [code1; code2] ;;
  code_compare' <- llm p2 ;;
  ret {| rating := Some rating';
         code_compare := Some code_compare';
         feedback := None; history := None; code := None;
         specialization := None; iterations := None; actual_code := None |}.

Definition truthy (z : Z) : bool := negb (z =? 0).

Definition deployment_ready (state : GraphState) : M string :=
  p <- fmt classify_feedback [str_of (code state); str_of (feedback state)] ;;
  r <- llm p ;;
  let deployment_ready' := if contains "yes" r then 1 else 0 in
  b <- gt_five (iterations state) ;;
  let total_iterations := if b then 1 else 0 in
  ret (if truthy deployment_ready' || truthy total_iterations
       then "handle_result" else "handle_coder").

(** The path map of [add_conditional_edges]. *)
Definition path_map (name : string) : option node :=
  if String.eqb name "handle_result" then Some handle_result_node
  else if String.eqb name "handle_coder" then Some handle_coder_node
  else None.

(** One node execution: the handler runs, its writes are merged, and the
    outgoing edge (conditional after the reviewer, fixed otherwise) gives
    the next node; [None] is [END]. *)
Definition exec_node (n : node) (st : GraphState) : M (option node * GraphState) :=
  log_step n ;;;
  match n with
  | handle_reviewer_node =>
      upd <- handle_reviewer st ;;
      let st' := merge st upd in
      r <- deployment_ready st' ;;
      n' <- getitem (path_map r) ;;
      ret (Some n', st')
  | handle_coder_node =>
      upd <- handle_coder st ;;
      ret (Some handle_reviewer_node, merge st upd)
  | handle_result_node =>
      upd <- handle_result st ;;
      ret (None, merge st upd)
  end.

(** The compiled graph: node executions until [END].  The executor tests
    the budget ([recursion_limit]) before it looks at what comes next, so a
    run of [n] node executions needs a limit of [n + 1]: when the last
    allowed step has been used the run raises, also when only [END] was
    left. *)
Fixpoint run_graph (limit : nat) (c : option node) (st : GraphState) : M GraphState :=
  match limit with
  | O => raise GraphRecursionError
  | S limit' =>
      match c with
      | None => ret st
      | Some n =>
          r <- exec_node n st ;;
          run_graph limit' (fst r) (snd r)
      end
  end.

(** [app.invoke(input, {"recursion_limit": limit})]; the entry point is the
    reviewer. *)
Definition invoke (input : GraphState) (limit : nat) : M GraphState :=
  run_graph limit (Some handle_reviewer_node) input.

Definition initial_state (code0 : string) : GraphState :=
  {| history := Some code0; code := Some code0; actual_code := Some code0;
     specialization := Some "python"; iterations := Some 0;
     feedback := None; rating := None; code_compare := None |}.

(** Lines 105-117 of the script. *)
Definition main_run : M GraphState :=
  code0 <- llm problem ;;
  invoke (initial_state code0) 100.

(** Lines 118-122 of the script. *)
Definition main_report (conversation : GraphState) : M unit :=
  v1 <- getitem (code conversation) ;; print v1 ;;;
  v2 <- getitem (history conversation) ;; print v2 ;;;
  v3 <- getitem (feedback conversation) ;; print v3 ;;;
  v4 <- getitem (rating conversation) ;; print v4 ;;;
  v5 <- getitem (code_compare conversation) ;; print v5.

Definition main : M unit :=
  conversation <- main_run ;;
  main_report conversation.

End Workflow.

(** A generator that always answers. *)
Definition stub_gen (stub : list string -> string -> string)
  : list string -> string -> option string :=
  fun log p => Some (stub log p).

(** What the specification calls case-insensitive search for "yes": the
    response is lower-cased (ASCII letters) and then searched. *)
Definition lower_ascii (c : ascii) : ascii :=
  let n := nat_of_ascii c in
  if ((65 <=? n) && (n <=? 90))%nat then ascii_of_nat (n + 32) else c.

Fixpoint lower (s : string) : string :=
  match s with
  | EmptyString => EmptyString
  | String c r => String (lower_ascii c) (lower r)
  end.

Definition spec_contains_yes_ci (r : string) : bool := contains "yes" (lower r).

Definition count_node (n : node) (l : list node) : nat :=
  length (filter (node_eqb n) l).

(** ** Definitions used to state the properties *)

Definition reviewer_prompt (spec code0 : string) : string :=
  "You are Code reviewer specialized in " ++ spec ++
  ".You need to review the given code following PEP8 guidelines and potential bugsand point out issues as bullet list.Code:"
  ++ nl ++ " " ++ code0.

Definition coder_prompt (spec fb code0 : string) : string :=
  "You are a Coder specialized in " ++ spec ++
  ".Improve the given code given the following guidelines. Guideline:" ++ nl ++ " " ++ fb ++
  " " ++ nl ++ " Code:" ++ nl ++ " " ++ code0 ++ " " ++ nl ++
  " Output just the improved code and nothing else.".

Definition rating_prompt (hist : string) : string :=
  "Rate the skills of the coder on a scale of 10 given the Code review cycle with a short reason.Code review:"
  ++ nl ++ " " ++ hist ++ " " ++ nl ++ " ".

Definition comparison_prompt (code1 code2 : string) : string :=
  "Compare the two code snippets and rate on a scale of 10 to both. Dont output the codes.Revised Code: "
  ++ nl ++ " " ++ code1 ++ " " ++ nl ++ " Actual Code: " ++ nl ++ " " ++ code2.

Definition classify_prompt (code0 fb : string) : string :=
  "Are all feedback mentioned resolved in the code? Output just Yes or No.Code: "
  ++ nl ++ " " ++ code0 ++ " " ++ nl ++ " Feedback: " ++ nl ++ " " ++ fb ++ " " ++ nl.

(** The world after printing [line] and then submitting [ps]. *)
Definition after (w : World) (line : list string) (ps : list string) : World :=
  mkWorld (prompts w ++ ps)%list (stdout w ++ line)%list (steps w).

Definition reviewer_update (h f : string) (i : Z) : GraphState :=
  {| history := Some (h ++ nl ++ " REVIEWER:" ++ nl ++ f);
     feedback := Some f;
     iterations := Some (i + 1);
     code := None; specialization := None; rating := None;
     code_compare := None; actual_code := None |}.

Definition coder_update (h c : string) : GraphState :=
  {| history := Some (h ++ nl ++ " CODER:" ++ nl ++ c);
     code := Some c;
     feedback := None; specialization := None; rating := None;
     iterations := None; code_compare := None; actual_code := None |}.

Definition result_update (r cc : string) : GraphState :=
  {| rating := Some r;
     code_compare := Some cc;
     feedback := None; history := None; code := None;
     specialization := None; iterations := None; actual_code := None |}.

Definition field (o : option string) : string := strip (get_or_empty o).

(** The world once the executor has started node [n]. *)
Definition started (w : World) (n : node) : World :=
  mkWorld (prompts w) (stdout w) (steps w ++ [n])%list.

(** The route the conditional edge takes for response [r] at counter [i]. *)
Definition route (r : string) (i : Z) : node :=
  if contains "yes" r || (i >? 5) then handle_result_node else handle_coder_node.

(** States reachable from the entry point with input [st0] in world [w0]. *)
Inductive reachable (gen : list string -> string -> option string)
  (st0 : GraphState) (w0 : World)
  : option node -> GraphState -> World -> Prop :=
| reach_entry : reachable gen st0 w0 (Some handle_reviewer_node) st0 w0
| reach_exec : forall n st w c' st' w',
    reachable gen st0 w0 (Some n) st w ->
    exec_node gen n st w = (inr (c', st'), w') ->
    reachable gen st0 w0 c' st' w'.

Definition state_after_first_review : GraphState :=
  {| history := Some "x"; code := Some "x"; actual_code := Some "x";
     specialization := Some "python"; iterations := Some 1;
     feedback := Some "- fix it"; rating := None; code_compare := None |}.

Definition padded_history : string := "a             ".

Definition state_with_padded_history : GraphState :=
  {| history := Some padded_history; code := Some "x"; actual_code := Some "x";
     specialization := Some "python"; iterations := Some 0;
     feedback := None; rating := None; code_compare := None |}.

Definition state_without_iterations : GraphState :=
  {| history := Some "x"; code := Some "x"; actual_code := Some "x";
     specialization := Some "python"; iterations := None;
     feedback := None; rating := None; code_compare := None |}.

(** [k] review/revise round trips. *)
Fixpoint rounds (k : nat) : list node :=
  match k with
  | O => []
  | S k' => handle_reviewer_node :: handle_coder_node :: rounds k'
  end.

Definition never_resolved (stub : list string -> string -> string) : Prop :=
  forall log c f, contains "yes" (stub log (classify_prompt c f)) = false.

Definition present {A : Type} (o : option A) : Prop := exists v, o = Some v.


(** ** States in which a key may hold [None] *)

(** What the state dictionary has under a key: nothing, [None], or a
    value. *)
Inductive slot (A : Type) : Type :=
| Absent
| HoldsNone
| Holds (a : A).

Arguments Absent {A}.
Arguments HoldsNone {A}.
Arguments Holds {A} a.

Record StoredState : Type := mkStored {
  s_feedback : slot string;
  s_history : slot string;
  s_code : slot string;
  s_specialization : slot string;
  s_rating : slot string;
  s_iterations : slot Z;
  s_code_compare : slot string;
  s_actual_code : slot string
}.

(** [state.get(key, '')]: the default for an absent key, else what the key
    holds, which may be [None]. *)
Definition get_default (x : slot string) : option string :=
  match x with
  | Absent => Some ""
  | HoldsNone => None
  | Holds v => Some v
  end.

(** [state.get(key)] *)
Definition get_plain {A : Type} (x : slot A) : option A :=
  match x with
  | Holds v => Some v
  | _ => None
  end.

(** [v.strip()] for a [v] that is a text or [None]. *)
Definition strip_value (v : option string) : M string :=
  match v with
  | Some s => ret (strip s)
  | None => raise AttributeError
  end.

(** The text a key contributes when it can be read: the empty text for an
    absent key. *)
Definition slot_text (x : slot string) : string :=
  match x with
  | Holds v => v
  | _ => ""
  end.

Definition to_slot {A : Type} (o : option A) : slot A :=
  match o with
  | Some v => Holds v
  | None => Absent
  end.

(** A [GraphState] as a stored state. *)
Definition stored (st : GraphState) : StoredState :=
  {| s_feedback := to_slot (feedback st);
     s_history := to_slot (history st);
     s_code := to_slot (code st);
     s_specialization := to_slot (specialization st);
     s_rating := to_slot (rating st);
     s_iterations := to_slot (iterations st);
     s_code_compare := to_slot (code_compare st);
     s_actual_code := to_slot (actual_code st) |}.

Module Stored.

Section Handlers.

Variable gen : list string -> string -> option string.

Definition handle_reviewer (state : StoredState) : M GraphState :=
  history' <- strip_value (get_default (s_history state)) ;;
  code' <- strip_value (get_default (s_code state)) ;;
  specialization' <- strip_value (get_default (s_specialization state)) ;;
  let iterations' := get_plain (s_iterations state) in
  print "Reviewer working..." ;;;
  p <- fmt reviewer_start [specialization'; code'] ;;
  feedback' <- llm gen p ;;
  n <- add_one iterations' ;;
  ret {| history := Some (history' ++ nl ++ " REVIEWER:" ++ nl ++ feedback');
         feedback := Some feedback';
         iterations := Some n;
         code := None; specialization := None; rating := None;
         code_compare := None; actual_code := None |}.

Definition handle_coder (state : StoredState) : M GraphState :=
  history' <- strip_value (get_default (s_history state)) ;;
  feedback' <- strip_value (get_default (s_feedback state)) ;;
  code' <- strip_value (get_default (s_code state)) ;;
  specialization' <- strip_value (get_default (s_specialization state)) ;;
  print "CODER rewriting..." ;;;
  p <- fmt coder_start [specialization'; feedback'; code'] ;;
  code'' <- llm gen p ;;
  ret {| history := Some (history' ++ nl ++ " CODER:" ++ nl ++ code'');
         code := Some code'';
         feedback := None; specialization := None; rating := None;
         iterations := None; code_compare := None; actual_code := None |}.

Definition handle_result (state : StoredState) : M GraphState :=
  print "Review done..." ;;;
  history' <- strip_value (get_default (s_history state)) ;;
  code1 <- strip_value (get_default (s_code state)) ;;
  code2 <- strip_value (get_default (s_actual_code state)) ;;
  p1 <- fmt rating_start [history'] ;;
  rating' <- llm gen p1 ;;
  p2 <- fmt code_comparison [code1; code2] ;;
  code_compare' <- llm gen p2 ;;
  ret {| rating := Some rating';
         code_compare := Some code_compare';
         feedback := None; history := None; code := None;
         specialization := None; iterations := None; actual_code := None |}.

End Handlers.

End Stored.

(** No string key holds [None]. *)
Definition readable (x : slot string) : Prop := x <> HoldsNone.

Definition stored_without_strings : StoredState :=
  {| s_feedback := Absent; s_history := Absent; s_code := Holds "";
     s_specialization := Absent; s_rating := Absent; s_iterations := Holds 0;
     s_code_compare := Absent; s_actual_code := Absent |}.

Definition stored_with_none_code : StoredState :=
  {| s_feedback := Absent; s_history := Holds "x"; s_code := HoldsNone;
     s_specialization := Holds "python"; s_rating := Absent;
     s_iterations := Holds 0; s_code_compare := Absent;
     s_actual_code := Holds "x" |}.

(** ** Utility functions of OrigCode.py *)

(** Records that reach the log: the root logger is configured at level
    [INFO], so [logging.debug] records are dropped.  The time stamp of a
    record is not modelled. *)
Inductive log_level : Type := LDEBUG | LINFO | LWARNING | LERROR.

Definition level_enabled (l : log_level) : bool :=
  match l with
  | LDEBUG => false
  | _ => true
  end.

Definition log_record (l : log_level) (msg : string)
  (log : list (log_level * string)) : list (log_level * string) :=
  if level_enabled l then (log ++ [(l, msg)])%list else log.

Definition unhashable_warning : string :=
  "Unhashable type encountered, skipping duplicate removal for this item.".

Section OrigCode.

(** Python values are kept abstract.  [veq x y] is the test a set or a
    dictionary makes between a stored key [x] and a probe [y]
    ([x is y or x == y]); [hashable x] says that [hash(x)] succeeds;
    [as_frozenset x] is, for an [x] that is a [set], the [frozenset] with
    the same elements, and nothing for any other value; [is_none x] is
    [x is None]. *)
Context {V : Type}.
Variable veq : V -> V -> bool.
Variable hashable : V -> bool.
Variable as_frozenset : V -> option V.
Variable is_none : V -> bool.

(** Whether the set [seen] has a key equal to the hashable [key]. *)
Definition set_mem (seen : list V) (key : V) : bool :=
  existsb (fun x => veq x key) seen.

(** The key under which a set looks [item] up: the item when it is
    hashable; for an unhashable [set] the membership test catches the
    [TypeError] and tries again with the frozenset; for any other
    unhashable value there is none. *)
Definition probe (item : V) : option V :=
  if hashable item then Some item else as_frozenset item.

(** [item in seen]; [None] is a [TypeError]. *)
Definition set_contains (seen : list V) (item : V) : option bool :=
  match probe item with
  | Some key => Some (set_mem seen key)
  | None => None
  end.

(** [seen.add(item)]: the new set; [None] is a [TypeError] ([add] does not
    try again with a frozenset). *)
Definition set_add (seen : list V) (item : V) : option (list V) :=
  if hashable item then Some (seen ++ [item])%list else None.

Fixpoint remove_duplicates_loop (data seen result : list V)
  (log : list (log_level * string)) : list V * list (log_level * string) :=
  match data with
  | [] => (result, log)
  | item :: rest =>
      match set_contains seen item with
      | Some true => remove_duplicates_loop rest seen result log
      | Some false =>
          match set_add seen item with
          | Some seen' => remove_duplicates_loop rest seen' (result ++ [item]) log
          | None =>
              (* [seen.add] raised: the handler logs and appends *)
              remove_duplicates_loop rest seen (result ++ [item])
                (log_record LWARNING unhashable_warning log)
          end
      | None =>
          (* [item not in seen] raised: the handler logs and appends *)
          remove_duplicates_loop rest seen (result ++ [item])
            (log_record LWARNING unhashable_warning log)
      end
  end.

(** [remove_duplicates(data)]: the returned list and the records logged. *)
Definition remove_duplicates (data : list V) : list V * list (log_level * string) :=
  remove_duplicates_loop data [] [] [].

(** The argument [transform_func]: [None], a callable (with its truth
    value, which the loop tests) or something else. *)
Inductive transform_arg : Type :=
| TransformNone
| TransformCallable (truth : bool) (f : V -> V)
| TransformOther.

Fixpoint process_data_loop (data : list V) (g : V -> V) (processed_data : list V)
  : list V :=
  match data with
  | [] => processed_data
  | item :: rest =>
      let transformed_item := g item in
      if negb (is_none transformed_item)
      then process_data_loop rest g (processed_data ++ [transformed_item])
      else process_data_loop rest g processed_data
  end.

Definition process_data (data : list V) (transform_func : transform_arg)
  : exn + list V :=
  match transform_func with
  | TransformOther => inl TypeError
  | TransformNone => inr (process_data_loop data (fun item => item) [])
  | TransformCallable truth f =>
      inr (process_data_loop data (fun item => if truth then f item else item) [])
  end.

(** Dictionaries keyed by hashable values, in insertion order. *)
Section Dict.

Context {X : Type}.

Fixpoint dict_mem (d : list (V * X)) (key : V) : bool :=
  match d with
  | [] => false
  | (k, _) :: d' => veq k key || dict_mem d' key
  end.


(** [d[key] = x]: the value of an existing entry is replaced, a new entry
    goes to the end. *)
Fixpoint dict_set (d : list (V * X)) (key : V) (x : X) : list (V * X) :=
  match d with
  | [] => [(key, x)]
  | (k, y) :: d' => if veq k key then (k, x) :: d' else (k, y) :: dict_set d' key x
  end.

(** In-place update of the value stored at [key]. *)
Fixpoint dict_update (d : list (V * X)) (key : V) (f : X -> X) : list (V * X) :=
  match d with
  | [] => []
  | (k, y) :: d' => if veq k key then (k, f y) :: d' else (k, y) :: dict_update d' key f
  end.

End Dict.

(** The dictionaries of the input list: [item_get item attribute] is
    [item[attribute]], [None] when it raises [KeyError]. *)
Context {D : Type}.
Variable item_get : D -> string -> option V.

Fixpoint group_loop (data : list D) (attribute : string) (raise_key_error : bool)
  (grouped_data : list (V * list D)) : exn + list (V * list D) :=
  match data with
  | [] => inr grouped_data
  | item :: rest =>
      match item_get item attribute with
      | None =>
          if raise_key_error then inl KeyError
          else group_loop rest attribute raise_key_error grouped_data
      | Some key =>
          if hashable key then
            let grouped1 :=
              if negb (dict_mem grouped_data key)
              then dict_set grouped_data key []
              else grouped_data in
            group_loop rest attribute raise_key_error
              (dict_update grouped1 key (fun l => l ++ [item])%list)
          else inl TypeError
      end
  end.

Definition group_data_by_attribute (data : list D) (attribute : string)
  (raise_key_error : bool) : exn + list (V * list D) :=
  match data with
  | [] => inr []
  | _ => group_loop data attribute raise_key_error []
  end.

End OrigCode.

(** *** [validate_email]: the regular expression *)

Inductive regex : Type :=
| Void
| Eps
| Class (p : ascii -> bool)
| Cat (r s : regex)
| Alt (r s : regex)
| Star (r : regex).

Fixpoint nullable (r : regex) : bool :=
  match r with
  | Void => false
  | Eps => true
  | Class _ => false
  | Cat r1 r2 => nullable r1 && nullable r2
  | Alt r1 r2 => nullable r1 || nullable r2
  | Star _ => true
  end.

Fixpoint deriv (c : ascii) (r : regex) : regex :=
  match r with
  | Void => Void
  | Eps => Void
  | Class p => if p c then Eps else Void
  | Cat r1 r2 =>
      if nullable r1 then Alt (Cat (deriv c r1) r2) (deriv c r2)
      else Cat (deriv c r1) r2
  | Alt r1 r2 => Alt (deriv c r1) (deriv c r2)
  | Star r1 => Cat (deriv c r1) (Star r1)
  end.

(** Whether the whole of [s] matches [r]. *)
Fixpoint re_fullmatch (r : regex) (s : string) : bool :=
  match s with
  | EmptyString => nullable r
  | String c s' => re_fullmatch (deriv c r) s'
  end.

Definition in_range (lo hi : nat) (c : ascii) : bool :=
  ((lo <=? nat_of_ascii c) && (nat_of_ascii c <=? hi))%nat.

(** [[a-zA-Z]] *)
Definition is_letter (c : ascii) : bool := in_range 97 122 c || in_range 65 90 c.

(** [[a-zA-Z0-9._%+-]] *)
Definition is_local_char (c : ascii) : bool :=
  is_letter c || in_range 48 57 c ||
  Ascii.eqb c "." || Ascii.eqb c "_" || Ascii.eqb c "%" || Ascii.eqb c "+" ||
  Ascii.eqb c "-".

(** [[a-zA-Z0-9.-]] *)
Definition is_domain_char (c : ascii) : bool :=
  is_letter c || in_range 48 57 c || Ascii.eqb c "." || Ascii.eqb c "-".

Definition plus (r : regex) : regex := Cat r (Star r).

(** The pattern between [^] and [$]. *)
Definition email_body : regex :=
  Cat (plus (Class is_local_char))
    (Cat (Class (Ascii.eqb "@"))
       (Cat (plus (Class is_domain_char))
          (Cat (Class (Ascii.eqb "."))
             (Cat (Class is_letter) (Cat (Class is_letter) (Star (Class is_letter))))))).

(** [re.match(email_regex, email) is not None]: [^] is the start of the
    text, where [re.match] starts anyway; [$] holds at the end of the text
    and just before a newline that ends the text. *)
Definition email_regex : regex :=
  Cat email_body (Alt Eps (Class (Ascii.eqb (ascii_of_nat 10)))).

(** [validate_email(email)]; [None] is an argument that is not a [str]. *)
Definition validate_email (email : option string) : bool :=
  match email with
  | None => false
  | Some s => re_fullmatch email_regex s
  end.

(** The language of a regular expression. *)
Inductive lang : regex -> string -> Prop :=
| lang_eps : lang Eps ""
| lang_class : forall (p : ascii -> bool) c, p c = true -> lang (Class p) (String c "")
| lang_cat : forall r1 r2 s1 s2, lang r1 s1 -> lang r2 s2 -> lang (Cat r1 r2) (s1 ++ s2)
| lang_alt_l : forall r1 r2 s, lang r1 s -> lang (Alt r1 r2) s
| lang_alt_r : forall r1 r2 s, lang r2 s -> lang (Alt r1 r2) s
| lang_star_nil : forall r, lang (Star r) ""
| lang_star_cons : forall r s1 s2, lang r s1 -> lang (Star r) s2 -> lang (Star r) (s1 ++ s2).

Fixpoint string_forallb (p : ascii -> bool) (s : string) : bool :=
  match s with
  | EmptyString => true
  | String c s' => p c && string_forallb p s'
  end.

Fixpoint count_char (a : ascii) (s : string) : nat :=
  match s with
  | EmptyString => O
  | String c s' => ((if Ascii.eqb c a then 1 else 0) + count_char a s')%nat
  end.

(** A non-empty text that [strip] leaves as it is. *)
Definition trimmed (s : string) : Prop := s <> "" /\ strip s = s.

(** An earlier hashable value [x] and a later value [y] of a list such that
    the membership test for [y] does not find [x]. *)
Definition unseen_pair {V : Type} (veq : V -> V -> bool) (hashable : V -> bool)
  (as_frozenset : V -> option V) (x y : V) : Prop :=
  hashable x = true ->
  forall key, probe hashable as_frozenset y = Some key -> veq x key = false.

(** The values the membership test cannot look up. *)
Definition unprobed {V : Type} (hashable : V -> bool) (as_frozenset : V -> option V)
  (x : V) : bool :=
  match probe hashable as_frozenset x with
  | Some _ => false
  | None => true
  end.

(** [subseq l1 l2]: [l1] is [l2] with some elements left out. *)
Inductive subseq {A : Type} : list A -> list A -> Prop :=
| subseq_nil : subseq [] []
| subseq_skip : forall x l1 l2, subseq l1 l2 -> subseq l1 (x :: l2)
| subseq_keep : forall x l1 l2, subseq l1 l2 -> subseq (x :: l1) (x :: l2).

(** The keys [item[attribute]] of the items that have the attribute. *)
Fixpoint present_keys {V D : Type} (item_get : D -> string -> option V)
  (attribute : string) (data : list D) : list V :=
  match data with
  | [] => []
  | item :: rest =>
      match item_get item attribute with
      | Some key => key :: present_keys item_get attribute rest
      | None => present_keys item_get attribute rest
      end
  end.


Definition has_attribute {V D : Type} (item_get : D -> string -> option V)
  (attribute : string) (item : D) : bool :=
  match item_get item attribute with
  | Some _ => true
  | None => false
  end.


(** A concrete instance: integer values, items as association lists. *)
Fixpoint assoc_get (item : list (string * Z)) (key : string) : option Z :=
  match item with
  | [] => None
  | (k, v) :: item' => if String.eqb k key then Some v else assoc_get item' key
  end.

Definition example_rows : list (list (string * Z)) :=
  [[("team", 1); ("id", 10)]; [("id", 11)]; [("team", 2); ("id", 12)];
   [("team", 1); ("id", 13)]].

(** The function the loop of [process_data] applies to each item. *)
Definition applied_function {V : Type} (transform_func : @transform_arg V) : V -> V :=
  match transform_func with
  | TransformCallable true f => f
  | _ => fun item => item
  end.

(** Optional integers as values: [None] is Python's [None]. *)
Definition opt_is_none (x : option Z) : bool :=
  match x with
  | None => true
  | Some _ => false
  end.

(** The texts the pattern of [validate_email] describes: a non-empty local
    part, [@], a non-empty domain part, a dot, at least two letters and, at
    the very end, at most one newline. *)
Definition email_shape (s : string) : Prop :=
  exists l d t e,
    s = l ++ "@" ++ d ++ "." ++ t ++ e /\
    l <> "" /\ string_forallb is_local_char l = true /\
    d <> "" /\ string_forallb is_domain_char d = true /\
    (2 <= String.length t)%nat /\ string_forallb is_letter t = true /\
    (e = "" \/ e = nl).

(** A few concrete Python values: integers, frozensets and sets of
    integers (as sorted lists) and lists. *)
Inductive sample_value : Type :=
| SInt (z : Z)
| SFrozenset (l : list Z)
| SSet (l : list Z)
| SList (l : list Z).

Fixpoint list_Z_eqb (a b : list Z) : bool :=
  match a, b with
  | [], [] => true
  | x :: a', y :: b' => (x =? y) && list_Z_eqb a' b'
  | _, _ => false
  end.

Definition sample_eq (x y : sample_value) : bool :=
  match x, y with
  | SInt a, SInt b => a =? b
  | SFrozenset a, SFrozenset b => list_Z_eqb a b
  | SFrozenset a, SSet b => list_Z_eqb a b
  | SSet a, SFrozenset b => list_Z_eqb a b
  | SSet a, SSet b => list_Z_eqb a b
  | SList a, SList b => list_Z_eqb a b
  | _, _ => false
  end.

Definition sample_hashable (x : sample_value) : bool :=
  match x with
  | SInt _ => true
  | SFrozenset _ => true
  | _ => false
  end.

Definition sample_as_frozenset (x : sample_value) : option sample_value :=
  match x with
  | SSet l => Some (SFrozenset l)
  | _ => None
  end.

(** ** Facts about strings *)

Lemma append_empty_r (s : string) : s ++ "" = s.
Proof.
  induction s as [|c s IH]; simpl; [reflexivity | now rewrite IH].
Qed.

Lemma length_append (s t : string) :
  String.length (s ++ t) = (String.length s + String.length t)%nat.
Proof.
  induction s as [|c s IH]; simpl; [reflexivity | now rewrite IH].
Qed.

Lemma prefix_append (s t : string) : String.prefix s (s ++ t) = true.
Proof.
  induction s as [|c s IH]; simpl.
  - now destruct t.
  - destruct (ascii_dec c c) as [_|ne]; [exact IH | now elim ne].
Qed.

(** ** The prompts the templates produce *)

Lemma format_reviewer_start (a b : string) :
  format reviewer_start [a; b] = Some (reviewer_prompt a b).
Proof.
  unfold reviewer_prompt. rewrite <- (append_empty_r b) at 2. reflexivity.
Qed.

Lemma format_coder_start (a b c : string) :
  format coder_start [a; b; c] = Some (coder_prompt a b c).
Proof. reflexivity. Qed.

Lemma format_rating_start (a : string) :
  format rating_start [a] = Some (rating_prompt a).
Proof. reflexivity. Qed.

Lemma format_code_comparison (a b : string) :
  format code_comparison [a; b] = Some (comparison_prompt a b).
Proof.
  unfold comparison_prompt. rewrite <- (append_empty_r b) at 2. reflexivity.
Qed.

Lemma format_classify_feedback (a b : string) :
  format classify_feedback [a; b] = Some (classify_prompt a b).
Proof. reflexivity. Qed.

(** ** What one call of each function does *)

Section Equations.

Variable gen : list string -> string -> option string.

Lemma handle_reviewer_eq (st : GraphState) (w : World) :
  handle_reviewer gen st w =
  let p := reviewer_prompt (field (specialization st)) (field (code st)) in
  let w' := after w ["Reviewer working..."] [p] in
  match gen (prompts w) p with
  | None => (inl GeneratorInvocationError, w')
  | Some f =>
      match iterations st with
      | None => (inl TypeError, w')
      | Some i => (inr (reviewer_update (field (history st)) f i), w')
      end
  end.
Proof.
  unfold handle_reviewer, bind, print, fmt, field.
  rewrite format_reviewer_start. unfold ret, llm, after. simpl.
  destruct (gen _ _); [|reflexivity].
  destruct (iterations st); reflexivity.
Qed.

Lemma handle_coder_eq (st : GraphState) (w : World) :
  handle_coder gen st w =
  let p := coder_prompt (field (specialization st)) (field (feedback st))
             (field (code st)) in
  let w' := after w ["CODER rewriting..."] [p] in
  match gen (prompts w) p with
  | None => (inl GeneratorInvocationError, w')
  | Some c => (inr (coder_update (field (history st)) c), w')
  end.
Proof.
  unfold handle_coder, bind, print, fmt, field.
  rewrite format_coder_start. unfold ret, llm, after. simpl.
  destruct (gen _ _); reflexivity.
Qed.

Lemma handle_result_eq (st : GraphState) (w : World) :
  handle_result gen st w =
  let p1 := rating_prompt (field (history st)) in
  let p2 := comparison_prompt (field (code st)) (field (actual_code st)) in
  match gen (prompts w) p1 with
  | None => (inl GeneratorInvocationError, after w ["Review done..."] [p1])
  | Some r =>
      match gen (prompts w ++ [p1])%list p2 with
      | None => (inl GeneratorInvocationError, after w ["Review done..."] [p1; p2])
      | Some cc => (inr (result_update r cc), after w ["Review done..."] [p1; p2])
      end
  end.
Proof.
  unfold handle_result, bind, print, fmt, field.
  rewrite format_rating_start, format_code_comparison.
  unfold ret, llm, after. simpl.
  destruct (gen _ _); [|reflexivity].
  cbn [prompts stdout steps]. rewrite <- app_assoc. cbn [app].
  destruct (gen _ _); reflexivity.
Qed.

Lemma deployment_ready_eq (st : GraphState) (w : World) :
  deployment_ready gen st w =
  let p := classify_prompt (str_of (code st)) (str_of (feedback st)) in
  let w' := after w [] [p] in
  match gen (prompts w) p with
  | None => (inl GeneratorInvocationError, w')
  | Some r =>
      match iterations st with
      | None => (inl TypeError, w')
      | Some i =>
          (inr (if contains "yes" r || (i >? 5)
                then "handle_result" else "handle_coder"), w')
      end
  end.
Proof.
  unfold deployment_ready, bind, fmt.
  rewrite format_classify_feedback. unfold ret, llm, after. simpl.
  rewrite app_nil_r.
  destruct (gen _ _); [|reflexivity].
  destruct (iterations st) as [i|]; simpl; [|reflexivity].
  destruct (contains "yes" s), (i >? 5); reflexivity.
Qed.

End Equations.

Section NodeEquations.

Variable gen : list string -> string -> option string.

Lemma exec_reviewer_eq (st : GraphState) (w : World) :
  exec_node gen handle_reviewer_node st w =
  let p := reviewer_prompt (field (specialization st)) (field (code st)) in
  let w1 := after (started w handle_reviewer_node) ["Reviewer working..."] [p] in
  match gen (prompts w) p with
  | None => (inl GeneratorInvocationError, w1)
  | Some f =>
      match iterations st with
      | None => (inl TypeError, w1)
      | Some i =>
          let q := classify_prompt (str_of (code st)) f in
          let w2 := after w1 [] [q] in
          match gen (prompts w ++ [p])%list q with
          | None => (inl GeneratorInvocationError, w2)
          | Some r =>
              (inr (Some (route r (i + 1)),
                    merge st (reviewer_update (field (history st)) f i)), w2)
          end
      end
  end.
Proof.
  unfold exec_node, bind at 1. unfold log_step at 1.
  unfold bind at 1. rewrite handle_reviewer_eq.
  cbn [prompts stdout steps started after].
  destruct (gen (prompts w) _) as [f|]; [|reflexivity].
  destruct (iterations st) as [i|] eqn:Hi; [|reflexivity].
  cbn zeta. unfold bind at 1. rewrite deployment_ready_eq.
  cbn [prompts stdout steps after merge reviewer_update code feedback
       iterations override str_of].
  destruct (gen _ _) as [r|]; [|reflexivity].
  unfold route.
  destruct (contains "yes" r || (i + 1 >? 5)); reflexivity.
Qed.

Lemma exec_coder_eq (st : GraphState) (w : World) :
  exec_node gen handle_coder_node st w =
  let p := coder_prompt (field (specialization st)) (field (feedback st))
             (field (code st)) in
  let w1 := after (started w handle_coder_node) ["CODER rewriting..."] [p] in
  match gen (prompts w) p with
  | None => (inl GeneratorInvocationError, w1)
  | Some c =>
      (inr (Some handle_reviewer_node,
            merge st (coder_update (field (history st)) c)), w1)
  end.
Proof.
  unfold exec_node, bind at 1. unfold log_step at 1.
  unfold bind at 1. rewrite handle_coder_eq.
  cbn [prompts stdout steps started after].
  destruct (gen (prompts w) _); reflexivity.
Qed.

Lemma exec_result_eq (st : GraphState) (w : World) :
  exec_node gen handle_result_node st w =
  let p1 := rating_prompt (field (history st)) in
  let p2 := comparison_prompt (field (code st)) (field (actual_code st)) in
  let w0 := started w handle_result_node in
  match gen (prompts w) p1 with
  | None => (inl GeneratorInvocationError, after w0 ["Review done..."] [p1])
  | Some r =>
      match gen (prompts w ++ [p1])%list p2 with
      | None => (inl GeneratorInvocationError, after w0 ["Review done..."] [p1; p2])
      | Some cc =>
          (inr (None, merge st (result_update r cc)),
           after w0 ["Review done..."] [p1; p2])
      end
  end.
Proof.
  unfold exec_node, bind at 1. unfold log_step at 1.
  unfold bind at 1. rewrite handle_result_eq.
  cbn [prompts stdout steps started after].
  destruct (gen (prompts w) _); [|reflexivity].
  destruct (gen _ _); reflexivity.
Qed.

Lemma run_graph_reachable (st0 : GraphState) (w0 : World) (limit : nat) :
  forall c st w st' w',
    reachable gen st0 w0 c st w ->
    run_graph gen limit c st w = (inr st', w') ->
    reachable gen st0 w0 None st' w'.
Proof.
  induction limit as [|limit IH]; intros c st w st' w' Hr Hrun.
  - discriminate.
  - destruct c as [n|]; simpl in Hrun.
    + unfold bind in Hrun.
      destruct (exec_node gen n st w) as [[e|[c1 st1]] w1] eqn:He; [discriminate|].
      simpl in Hrun. eapply IH; [|exact Hrun].
      eapply reach_exec; eassumption.
    + inversion Hrun; subst. exact Hr.
Qed.

End NodeEquations.

(** ** Successful node executions, inverted *)

Section Inversion.

Variable gen : list string -> string -> option string.

Lemma exec_reviewer_inv (st : GraphState) (w : World) c' st' w' :
  exec_node gen handle_reviewer_node st w = (inr (c', st'), w') ->
  exists f i r,
    let p := reviewer_prompt (field (specialization st)) (field (code st)) in
    let q := classify_prompt (str_of (code st)) f in
    gen (prompts w) p = Some f /\
    iterations st = Some i /\
    gen (prompts w ++ [p])%list q = Some r /\
    c' = Some (route r (i + 1)) /\
    st' = merge st (reviewer_update (field (history st)) f i) /\
    w' = after (after (started w handle_reviewer_node)
                  ["Reviewer working..."] [p]) [] [q].
Proof.
  rewrite exec_reviewer_eq. cbn zeta.
  destruct (gen (prompts w) _) as [f|] eqn:Hf; [|discriminate].
  destruct (iterations st) as [i|] eqn:Hi; [|discriminate].
  destruct (gen (prompts w ++ _)%list _) as [r|] eqn:Hr; [|discriminate].
  intros H; inversion H; subst. exists f, i, r. repeat split; assumption.
Qed.

Lemma exec_coder_inv (st : GraphState) (w : World) c' st' w' :
  exec_node gen handle_coder_node st w = (inr (c', st'), w') ->
  exists c,
    let p := coder_prompt (field (specialization st)) (field (feedback st))
               (field (code st)) in
    gen (prompts w) p = Some c /\
    c' = Some handle_reviewer_node /\
    st' = merge st (coder_update (field (history st)) c) /\
    w' = after (started w handle_coder_node) ["CODER rewriting..."] [p].
Proof.
  rewrite exec_coder_eq. cbn zeta.
  destruct (gen (prompts w) _) as [c|] eqn:Hc; [|discriminate].
  intros H; inversion H; subst. exists c. repeat split; assumption.
Qed.

Lemma exec_result_inv (st : GraphState) (w : World) c' st' w' :
  exec_node gen handle_result_node st w = (inr (c', st'), w') ->
  exists r cc,
    let p1 := rating_prompt (field (history st)) in
    let p2 := comparison_prompt (field (code st)) (field (actual_code st)) in
    gen (prompts w) p1 = Some r /\
    gen (prompts w ++ [p1])%list p2 = Some cc /\
    c' = None /\
    st' = merge st (result_update r cc) /\
    w' = after (started w handle_result_node) ["Review done..."] [p1; p2].
Proof.
  rewrite exec_result_eq. cbn zeta.
  destruct (gen (prompts w) _) as [r|] eqn:Hr; [|discriminate].
  destruct (gen (prompts w ++ _)%list _) as [cc|] eqn:Hcc; [|discriminate].
  intros H; inversion H; subst. exists r, cc. repeat split; assumption.
Qed.

Lemma count_node_app (n : node) (l1 l2 : list node) :
  count_node n (l1 ++ l2) = (count_node n l1 + count_node n l2)%nat.
Proof.
  unfold count_node. now rewrite filter_app, length_app.
Qed.

(** Every successful node execution logs exactly the node it ran. *)
Lemma exec_node_steps (n : node) (st : GraphState) (w : World) c' st' w' :
  exec_node gen n st w = (inr (c', st'), w') ->
  steps w' = (steps w ++ [n])%list.
Proof.
  destruct n; intros H.
  - apply exec_reviewer_inv in H. destruct H as (f & i & r & _ & _ & _ & _ & _ & ->).
    reflexivity.
  - apply exec_coder_inv in H. destruct H as (c & _ & _ & _ & ->). reflexivity.
  - apply exec_result_inv in H. destruct H as (r & cc & _ & _ & _ & _ & ->).
    reflexivity.
Qed.

(** What a successful node execution does to the counter. *)
Lemma exec_node_iterations (n : node) (st : GraphState) (w : World) c' st' w' :
  exec_node gen n st w = (inr (c', st'), w') ->
  iterations st' =
  match n with
  | handle_reviewer_node => option_map (fun i => i + 1) (iterations st)
  | _ => iterations st
  end.
Proof.
  destruct n; intros H.
  - apply exec_reviewer_inv in H.
    destruct H as (f & i & r & _ & Hi & _ & _ & -> & _).
    rewrite Hi. reflexivity.
  - apply exec_coder_inv in H. destruct H as (c & _ & _ & -> & _). reflexivity.
  - apply exec_result_inv in H. destruct H as (r & cc & _ & _ & _ & -> & _).
    reflexivity.
Qed.

End Inversion.

(** ** The termination policy *)

(** The policy continues exactly when the counter is at most 5 and the
    response does not contain "yes" as written, in lower case. *)
Lemma deployment_ready_continue_iff
  (stub : list string -> string -> string) (st : GraphState) (w : World) (i : Z) :
  iterations st = Some i ->
  let r := stub (prompts w) (classify_prompt (str_of (code st)) (str_of (feedback st))) in
  (fst (deployment_ready (stub_gen stub) st w) = inr "handle_coder"
   <-> i <= 5 /\ contains "yes" r = false) /\
  (fst (deployment_ready (stub_gen stub) st w) = inr "handle_result"
   <-> ~ (i <= 5 /\ contains "yes" r = false)).
Proof.
  intros Hi r. rewrite deployment_ready_eq. unfold stub_gen. cbn zeta.
  rewrite Hi. fold r. cbn [fst].
  destruct (contains "yes" r); destruct (Z.gtb_spec i 5); cbn [orb];
    intuition (discriminate || lia || reflexivity).
Qed.

(** C1, evaluated on the code: with the counter at 1 and the resolution
    check answered "Yes", the response contains "yes" under
    case-insensitive search, and the policy still returns "handle_coder"
    (continue), because the search in [deployment_ready] is for the
    lower-case letters only. *)
Theorem deployment_ready_misses_capital_Yes :
  spec_contains_yes_ci "Yes" = true /\
  contains "yes" "Yes" = false /\
  fst (deployment_ready (stub_gen (fun _ _ => "Yes"))
         state_after_first_review init_world) = inr "handle_coder".
Proof. repeat split. Qed.

(** C10: every evaluation of the termination policy submits the
    resolution-check prompt to the generator, whatever the generator does
    and whatever the counter holds (above the cap, or absent). *)
Theorem deployment_ready_always_asks
  (gen : list string -> string -> option string) (st : GraphState) (w : World) :
  prompts (snd (deployment_ready gen st w)) =
  (prompts w ++ [classify_prompt (str_of (code st)) (str_of (feedback st))])%list.
Proof.
  rewrite deployment_ready_eq. cbn zeta.
  destruct (gen _ _); [destruct (iterations st)|]; reflexivity.
Qed.

(** ** The counter *)

Lemma reachable_iterations
  (gen : list string -> string -> option string)
  (st0 : GraphState) (w0 : World) c st w :
  iterations st0 = Some 0 ->
  steps w0 = [] ->
  reachable gen st0 w0 c st w ->
  iterations st = Some (Z.of_nat (count_node handle_reviewer_node (steps w))).
Proof.
  intros H0 Hw Hr. induction Hr as [|n st w c' st' w' Hr IH He].
  - rewrite H0, Hw. reflexivity.
  - rewrite (exec_node_iterations _ _ _ _ _ _ _ He).
    rewrite (exec_node_steps _ _ _ _ _ _ _ He), count_node_app, IH.
    destruct n; cbn [option_map]; f_equal; unfold count_node; simpl; lia.
Qed.

(** C4: in a run started with [iterations = 0], at every reachable state
    the counter equals the number of Reviewer Step executions so far; from
    there a Reviewer Step execution adds exactly 1 and an execution of any
    other node leaves the counter as it is. *)
Theorem iterations_equals_reviewer_executions
  (gen : list string -> string -> option string)
  (st0 : GraphState) (w0 : World) c st w :
  iterations st0 = Some 0 ->
  steps w0 = [] ->
  reachable gen st0 w0 c st w ->
  iterations st = Some (Z.of_nat (count_node handle_reviewer_node (steps w))) /\
  forall n c' st' w',
    exec_node gen n st w = (inr (c', st'), w') ->
    iterations st' =
    Some (Z.of_nat (count_node handle_reviewer_node (steps w))
          + if node_eqb handle_reviewer_node n then 1 else 0).
Proof.
  intros H0 Hw Hr.
  pose proof (reachable_iterations gen st0 w0 c st w H0 Hw Hr) as Hi.
  split; [exact Hi|].
  intros n c' st' w' He.
  rewrite (exec_node_iterations _ _ _ _ _ _ _ He), Hi.
  destruct n; cbn [option_map node_eqb]; f_equal; lia.
Qed.

Lemma iterations_equals_reviewer_executions_witness :
  iterations (initial_state "x") = Some 0 /\
  forall n c' st' w',
    exec_node (stub_gen (fun _ _ => "No.")) n (initial_state "x") init_world
      = (inr (c', st'), w') ->
    iterations st' = Some (0 + if node_eqb handle_reviewer_node n then 1 else 0).
Proof.
  apply (iterations_equals_reviewer_executions
           (stub_gen (fun _ _ => "No.")) (initial_state "x") init_world
           (Some handle_reviewer_node) (initial_state "x") init_world).
  - reflexivity.
  - reflexivity.
  - apply reach_entry.
Defined.

(** ** Frame *)

(** C7: a node execution (handler, merge of its writes and, after the
    reviewer, the termination policy) never changes [specialization] or
    [actual_code], and changes no key outside the node's outputs: the
    reviewer writes only [history], [feedback] and [iterations], the coder
    only [history] and [code], the finalizer only [rating] and
    [code_compare]. *)
Theorem exec_node_frame
  (gen : list string -> string -> option string)
  (n : node) (st : GraphState) (w : World) c' st' w' :
  exec_node gen n st w = (inr (c', st'), w') ->
  specialization st' = specialization st /\
  actual_code st' = actual_code st /\
  match n with
  | handle_reviewer_node =>
      code st' = code st /\ rating st' = rating st /\
      code_compare st' = code_compare st
  | handle_coder_node =>
      feedback st' = feedback st /\ iterations st' = iterations st /\
      rating st' = rating st /\ code_compare st' = code_compare st
  | handle_result_node =>
      feedback st' = feedback st /\ history st' = history st /\
      code st' = code st /\ iterations st' = iterations st
  end.
Proof.
  destruct n; intros H.
  - apply exec_reviewer_inv in H.
    destruct H as (f & i & r & _ & _ & _ & _ & -> & _). repeat split.
  - apply exec_coder_inv in H. destruct H as (c & _ & _ & -> & _). repeat split.
  - apply exec_result_inv in H. destruct H as (r & cc & _ & _ & _ & -> & _).
    repeat split.
Qed.

Lemma exec_node_frame_witness :
  exists c' st' w',
    exec_node (stub_gen (fun _ _ => "No.")) handle_coder_node
      state_after_first_review init_world = (inr (c', st'), w') /\
    specialization st' = Some "python" /\
    actual_code st' = Some "x" /\
    feedback st' = Some "- fix it" /\ iterations st' = Some 1 /\
    rating st' = None /\ code_compare st' = None.
Proof.
  eexists _, _, _. split; [reflexivity|].
  refine (exec_node_frame (stub_gen (fun _ _ => "No.")) handle_coder_node
            state_after_first_review init_world _ _ _ _).
  reflexivity.
Defined.

Lemma exec_node_labels
  (gen : list string -> string -> option string)
  (n : node) (st : GraphState) (w : World) c' st' w' :
  exec_node gen n st w = (inr (c', st'), w') ->
  specialization st' = specialization st /\ actual_code st' = actual_code st.
Proof.
  destruct n; intros H.
  - apply exec_reviewer_inv in H.
    destruct H as (f & i & r & _ & _ & _ & _ & -> & _). split; reflexivity.
  - apply exec_coder_inv in H. destruct H as (c & _ & _ & -> & _). split; reflexivity.
  - apply exec_result_inv in H. destruct H as (r & cc & _ & _ & _ & -> & _).
    split; reflexivity.
Qed.

(** Across a whole run the two labels keep the values the run started with. *)
Lemma reachable_labels
  (gen : list string -> string -> option string)
  (st0 : GraphState) (w0 : World) c st w :
  reachable gen st0 w0 c st w ->
  specialization st = specialization st0 /\ actual_code st = actual_code st0.
Proof.
  induction 1 as [|n st w c' st' w' Hr [IH1 IH2] He]; [split; reflexivity|].
  destruct (exec_node_labels gen n st w c' st' w' He) as (H1 & H2).
  split; congruence.
Qed.

(** ** The transcript *)

(** C5 fails as stated: from a transcript that ends in blanks, a Reviewer
    Step whose feedback is empty leaves a transcript that is not the old one
    followed by the tag the claim gives and the feedback, does not have the
    old one as a prefix, and is shorter than the old one. *)
Lemma reviewer_step_rewrites_history :
  exists c' st' w' h',
    exec_node (stub_gen (fun _ _ => "")) handle_reviewer_node
      state_with_padded_history init_world = (inr (c', st'), w') /\
    feedback st' = Some "" /\
    history st' = Some h' /\
    h' <> padded_history ++ nl ++ "REVIEWER:" ++ nl ++ "" /\
    String.prefix padded_history h' = false /\
    (String.length h' < String.length padded_history)%nat.
Proof.
  eexists _, _, _, _. split; [vm_compute; reflexivity|].
  split; [reflexivity|]. split; [reflexivity|].
  split; [discriminate|]. split; [reflexivity|]. vm_compute. lia.
Qed.

(** C5, amended: the Reviewer Step sets the transcript to the stripped
    previous transcript, then a newline, " REVIEWER:", a newline and the
    feedback; the Coder Step does the same with " CODER:" and the new code;
    the Finalizer leaves the transcript as it is.  The stripped previous
    transcript is a prefix of the new one, whose length is that of the
    stripped previous transcript plus 12 (reviewer) or 9 (coder) plus that
    of the appended output; so a previous transcript without leading or
    trailing whitespace is itself kept as a prefix and the length grows. *)
Theorem exec_node_history
  (gen : list string -> string -> option string)
  (n : node) (st : GraphState) (w : World) c' st' w' :
  exec_node gen n st w = (inr (c', st'), w') ->
  let old := get_or_empty (history st) in
  match n with
  | handle_result_node => history st' = history st
  | _ =>
      exists out h',
        (if node_eqb n handle_reviewer_node
         then feedback st' = Some out /\
              h' = strip old ++ nl ++ " REVIEWER:" ++ nl ++ out /\
              String.length h' = (String.length (strip old) + 12 + String.length out)%nat
         else code st' = Some out /\
              h' = strip old ++ nl ++ " CODER:" ++ nl ++ out /\
              String.length h' = (String.length (strip old) + 9 + String.length out)%nat) /\
        history st' = Some h' /\
        String.prefix (strip old) h' = true /\
        (strip old = old ->
         String.prefix old h' = true /\
         (String.length old < String.length h')%nat)
  end.
Proof.
  intros H old. destruct n.
  - apply exec_reviewer_inv in H.
    destruct H as (f & i & r & _ & _ & _ & _ & -> & _).
    exists f, (strip old ++ nl ++ " REVIEWER:" ++ nl ++ f).
    assert (Hlen : String.length (strip old ++ nl ++ " REVIEWER:" ++ nl ++ f)
                   = (String.length (strip old) + 12 + String.length f)%nat).
    { rewrite length_append. simpl. lia. }
    cbn [node_eqb]. repeat split.
    + exact Hlen.
    + apply prefix_append.
    + rewrite <- H at 1. apply prefix_append.
    + rewrite Hlen, H. lia.
  - apply exec_coder_inv in H. destruct H as (c & _ & _ & -> & _).
    exists c, (strip old ++ nl ++ " CODER:" ++ nl ++ c).
    assert (Hlen : String.length (strip old ++ nl ++ " CODER:" ++ nl ++ c)
                   = (String.length (strip old) + 9 + String.length c)%nat).
    { rewrite length_append. simpl. lia. }
    cbn [node_eqb]. repeat split.
    + exact Hlen.
    + apply prefix_append.
    + rewrite <- H at 1. apply prefix_append.
    + rewrite Hlen, H. lia.
  - apply exec_result_inv in H. destruct H as (r & cc & _ & _ & _ & -> & _).
    reflexivity.
Qed.

Lemma exec_node_history_witness :
  exists c' st' w',
    exec_node (stub_gen (fun _ _ => "ok")) handle_reviewer_node
      (initial_state "x") init_world = (inr (c', st'), w') /\
    exists out h',
      (feedback st' = Some out /\
       h' = strip "x" ++ nl ++ " REVIEWER:" ++ nl ++ out /\
       String.length h' = (String.length (strip "x") + 12 + String.length out)%nat) /\
      history st' = Some h' /\
      String.prefix (strip "x") h' = true /\
      (strip "x" = "x" ->
       String.prefix "x" h' = true /\ (String.length "x" < String.length h')%nat).
Proof.
  eexists _, _, _. split; [vm_compute; reflexivity|].
  refine (exec_node_history (stub_gen (fun _ _ => "ok")) handle_reviewer_node
            (initial_state "x") init_world _ _ _ _).
  vm_compute; reflexivity.
Defined.

(** ** The finalizer *)

Lemma run_graph_end
  (gen : list string -> string -> option string)
  (limit : nat) (st : GraphState) (w : World) :
  run_graph gen (S limit) None st w = (inr st, w).
Proof. reflexivity. Qed.

Lemma run_graph_exec
  (gen : list string -> string -> option string)
  (limit : nat) (n : node) (st : GraphState) (w : World) c' st' w' :
  exec_node gen n st w = (inr (c', st'), w') ->
  run_graph gen (S limit) (Some n) st w = run_graph gen limit c' st' w'.
Proof.
  intros H. cbn [run_graph]. unfold bind. rewrite H. reflexivity.
Qed.

Lemma exec_result_stub
  (stub : list string -> string -> string) (st : GraphState) (w : World) :
  let p1 := rating_prompt (field (history st)) in
  let p2 := comparison_prompt (field (code st)) (field (actual_code st)) in
  exec_node (stub_gen stub) handle_result_node st w
  = (inr (None, merge st (result_update (stub (prompts w) p1)
                            (stub (prompts w ++ [p1])%list p2))),
     after (started w handle_result_node) ["Review done..."] [p1; p2]).
Proof. rewrite exec_result_eq. reflexivity. Qed.

Lemma run_result_stub
  (stub : list string -> string -> string) (limit : nat)
  (st : GraphState) (w : World) :
  let p1 := rating_prompt (field (history st)) in
  let p2 := comparison_prompt (field (code st)) (field (actual_code st)) in
  run_graph (stub_gen stub) (S (S limit)) (Some handle_result_node) st w
  = (inr (merge st (result_update (stub (prompts w) p1)
                      (stub (prompts w ++ [p1])%list p2))),
     after (started w handle_result_node) ["Review done..."] [p1; p2]).
Proof.
  cbv zeta. rewrite (run_graph_exec _ _ _ _ _ _ _ _ (exec_result_stub stub st w)).
  apply run_graph_end.
Qed.

(** C9: with a generator that answers, the Finalizer Step submits exactly
    two prompts, first the rating prompt over the stripped transcript, then
    the comparison prompt over the stripped final code and the stripped
    [actual_code]; [rating] is the first answer and [code_compare] the
    second; its outgoing edge is [END]: nothing more is executed, the run
    returns the state when the budget had room for one more step, and
    raises [GraphRecursionError] when the Finalizer used the last one. *)
Theorem handle_result_is_terminal
  (stub : list string -> string -> string) (st : GraphState) (w : World) :
  let p1 := rating_prompt (strip (get_or_empty (history st))) in
  let p2 := comparison_prompt (strip (get_or_empty (code st)))
              (strip (get_or_empty (actual_code st))) in
  exists st' w',
    exec_node (stub_gen stub) handle_result_node st w = (inr (None, st'), w') /\
    prompts w' = (prompts w ++ [p1; p2])%list /\
    rating st' = Some (stub (prompts w) p1) /\
    code_compare st' = Some (stub (prompts w ++ [p1])%list p2) /\
    steps w' = (steps w ++ [handle_result_node])%list /\
    (forall limit,
       run_graph (stub_gen stub) (S (S limit)) (Some handle_result_node) st w
       = (inr st', w')) /\
    run_graph (stub_gen stub) 1 (Some handle_result_node) st w
    = (inl GraphRecursionError, w').
Proof.
  intros p1 p2.
  eexists _, _. split; [apply exec_result_stub|].
  split; [reflexivity|]. split; [reflexivity|]. split; [reflexivity|].
  split; [reflexivity|]. split.
  - intros limit. apply run_result_stub.
  - rewrite (run_graph_exec _ _ _ _ _ _ _ _ (exec_result_stub stub st w)).
    reflexivity.
Qed.

(** ** Missing keys *)

(** C6 fails as stated: with [iterations] absent, the Reviewer Step raises
    [TypeError] (after it has called the generator). *)
Lemma handle_reviewer_without_iterations_raises :
  iterations state_without_iterations = None /\
  fst (handle_reviewer (stub_gen (fun _ _ => "ok"))
         state_without_iterations init_world) = inl TypeError.
Proof. split; reflexivity. Qed.

Lemma stored_handlers_agree
  (gen : list string -> string -> option string) (st : GraphState) (w : World) :
  Stored.handle_reviewer gen (stored st) w = handle_reviewer gen st w /\
  Stored.handle_coder gen (stored st) w = handle_coder gen st w /\
  Stored.handle_result gen (stored st) w = handle_result gen st w.
Proof.
  destruct st as [f h c sp r i cc ac].
  destruct f, h, c, sp, ac, i; repeat split; reflexivity.
Qed.

Lemma strip_value_readable (x : slot string) (w : World) :
  readable x -> strip_value (get_default x) w = (inr (strip (slot_text x)), w).
Proof. destruct x; [reflexivity | intros H; now elim H | reflexivity]. Qed.

(** A string key that holds [None] makes the step that reads it raise
    [AttributeError]. *)
Lemma stored_none_raises
  (gen : list string -> string -> option string) (st : StoredState) (w : World) :
  (s_history st = HoldsNone ->
   fst (Stored.handle_reviewer gen st w) = inl AttributeError /\
   fst (Stored.handle_coder gen st w) = inl AttributeError /\
   fst (Stored.handle_result gen st w) = inl AttributeError) /\
  (s_code st = HoldsNone ->
   fst (Stored.handle_reviewer gen st w) = inl AttributeError /\
   fst (Stored.handle_coder gen st w) = inl AttributeError /\
   fst (Stored.handle_result gen st w) = inl AttributeError) /\
  (s_specialization st = HoldsNone ->
   fst (Stored.handle_reviewer gen st w) = inl AttributeError /\
   fst (Stored.handle_coder gen st w) = inl AttributeError) /\
  (s_feedback st = HoldsNone ->
   fst (Stored.handle_coder gen st w) = inl AttributeError) /\
  (s_actual_code st = HoldsNone ->
   fst (Stored.handle_result gen st w) = inl AttributeError).
Proof.
  destruct st as [f h c sp r i cc ac].
  cbn [s_history s_code s_specialization s_feedback s_actual_code].
  split; [|split; [|split; [|split]]]; intros H;
    destruct f, h, c, sp, ac; try discriminate H; repeat split; reflexivity.
Qed.

(** With [iterations] absent or holding [None] and the string keys
    readable, the Reviewer Step raises [TypeError] once the generator has
    answered. *)
Lemma stored_reviewer_without_counter_raises
  (stub : list string -> string -> string) (st : StoredState) (w : World) :
  readable (s_history st) -> readable (s_code st) ->
  readable (s_specialization st) ->
  s_iterations st = Absent \/ s_iterations st = HoldsNone ->
  fst (Stored.handle_reviewer (stub_gen stub) st w) = inl TypeError.
Proof.
  intros Hh Hc Hs Hi. unfold Stored.handle_reviewer.
  unfold bind at 1. rewrite (strip_value_readable _ _ Hh).
  unfold bind at 1. rewrite (strip_value_readable _ _ Hc).
  unfold bind at 1. rewrite (strip_value_readable _ _ Hs).
  unfold bind, print, fmt. rewrite format_reviewer_start.
  destruct Hi as [-> | ->]; reflexivity.
Qed.

(** C6, amended: a string key that is absent from the state is read as the
    empty string, as is one that holds the empty string, and that value is
    stripped and goes into the prompt.  With a generator that answers, each
    of the Reviewer, Coder and Finalizer Steps returns without raising
    whenever none of the string keys it reads holds [None]; the Reviewer
    Step needs in addition that [iterations] holds a number, the other two
    steps do not read it. *)
Theorem handlers_accept_missing_strings
  (stub : list string -> string -> string) (st : StoredState) (w : World) :
  (forall x, x = Absent \/ x = Holds "" ->
             strip_value (get_default x) w = (inr "", w)) /\
  (readable (s_history st) -> readable (s_code st) ->
   readable (s_specialization st) ->
   forall i, s_iterations st = Holds i ->
   exists upd w',
     Stored.handle_reviewer (stub_gen stub) st w = (inr upd, w') /\
     prompts w' =
     (prompts w ++ [reviewer_prompt (strip (slot_text (s_specialization st)))
                      (strip (slot_text (s_code st)))])%list) /\
  (readable (s_history st) -> readable (s_feedback st) ->
   readable (s_code st) -> readable (s_specialization st) ->
   exists upd w',
     Stored.handle_coder (stub_gen stub) st w = (inr upd, w') /\
     prompts w' =
     (prompts w ++ [coder_prompt (strip (slot_text (s_specialization st)))
                      (strip (slot_text (s_feedback st)))
                      (strip (slot_text (s_code st)))])%list) /\
  (readable (s_history st) -> readable (s_code st) ->
   readable (s_actual_code st) ->
   exists upd w',
     Stored.handle_result (stub_gen stub) st w = (inr upd, w') /\
     prompts w' =
     (prompts w ++ [rating_prompt (strip (slot_text (s_history st)));
                    comparison_prompt (strip (slot_text (s_code st)))
                      (strip (slot_text (s_actual_code st)))])%list).
Proof.
  split; [|split; [|split]].
  - intros x [-> | ->]; reflexivity.
  - intros Hh Hc Hs i Hi. unfold Stored.handle_reviewer.
    unfold bind at 1. rewrite (strip_value_readable _ _ Hh).
    unfold bind at 1. rewrite (strip_value_readable _ _ Hc).
    unfold bind at 1. rewrite (strip_value_readable _ _ Hs).
    rewrite Hi. unfold bind, print, fmt.
    rewrite format_reviewer_start. unfold ret, llm, stub_gen. cbn.
    eexists _, _. split; reflexivity.
  - intros Hh Hf Hc Hs. unfold Stored.handle_coder.
    unfold bind at 1. rewrite (strip_value_readable _ _ Hh).
    unfold bind at 1. rewrite (strip_value_readable _ _ Hf).
    unfold bind at 1. rewrite (strip_value_readable _ _ Hc).
    unfold bind at 1. rewrite (strip_value_readable _ _ Hs).
    unfold bind, print, fmt.
    rewrite format_coder_start. unfold ret, llm, stub_gen. cbn.
    eexists _, _. split; reflexivity.
  - intros Hh Hc Ha. unfold Stored.handle_result.
    unfold bind at 1. unfold print at 1.
    unfold bind at 1. rewrite (strip_value_readable _ _ Hh).
    unfold bind at 1. rewrite (strip_value_readable _ _ Hc).
    unfold bind at 1. rewrite (strip_value_readable _ _ Ha).
    unfold bind, fmt.
    rewrite format_rating_start, format_code_comparison.
    unfold ret, llm, stub_gen. cbn [prompts stdout steps].
    eexists _, _. split; [reflexivity|].
    cbn [snd prompts]. rewrite <- app_assoc. reflexivity.
Qed.

Lemma handlers_accept_missing_strings_witness :
  (exists upd w',
     Stored.handle_reviewer (stub_gen (fun _ _ => "ok")) stored_without_strings
       init_world = (inr upd, w') /\
     prompts w' = ([] ++ [reviewer_prompt (strip "") (strip "")])%list) /\
  (exists upd w',
     Stored.handle_coder (stub_gen (fun _ _ => "ok")) stored_without_strings
       init_world = (inr upd, w') /\
     prompts w' = ([] ++ [coder_prompt (strip "") (strip "") (strip "")])%list) /\
  (exists upd w',
     Stored.handle_result (stub_gen (fun _ _ => "ok")) stored_without_strings
       init_world = (inr upd, w') /\
     prompts w' = ([] ++ [rating_prompt (strip "");
                          comparison_prompt (strip "") (strip "")])%list).
Proof.
  destruct (handlers_accept_missing_strings (fun _ _ => "ok")
              stored_without_strings init_world) as (_ & Hr & Hc & Hf).
  split; [|split].
  - apply (Hr ltac:(discriminate) ltac:(discriminate) ltac:(discriminate) 0 eq_refl).
  - apply (Hc ltac:(discriminate) ltac:(discriminate) ltac:(discriminate)
             ltac:(discriminate)).
  - apply (Hf ltac:(discriminate) ltac:(discriminate) ltac:(discriminate)).
Defined.

(** ** The iteration cap *)

Lemma unresolved_run (stub : list string -> string -> string) :
  never_resolved stub ->
  forall (k limit : nat) (st : GraphState) (w : World) (i : Z),
    iterations st = Some i ->
    i + Z.of_nat k = 5 ->
    (2 * k + 3 <= limit)%nat ->
    exists st' w',
      run_graph (stub_gen stub) limit (Some handle_reviewer_node) st w
      = (inr st', w') /\
      steps w' = (steps w ++ rounds k ++ [handle_reviewer_node; handle_result_node])%list /\
      iterations st' = Some 6.
Proof.
  intros Hno. induction k as [|k IH]; intros limit st w i Hi Hk Hlim.
  - destruct limit as [|[|[|limit]]]; try lia.
    assert (i = 5) by lia. subst i.
    pose proof (exec_reviewer_eq (stub_gen stub) st w) as He.
    unfold stub_gen in He at 2 3. cbn zeta in He. rewrite Hi in He.
    unfold route in He. rewrite Hno in He.
    change (false || (5 + 1 >? 5)) with true in He. cbv iota in He.
    rewrite (run_graph_exec _ _ _ _ _ _ _ _ He).
    rewrite run_result_stub. eexists _, _. split; [reflexivity|]. split.
    + cbn [steps after started rounds app]. rewrite <- app_assoc. reflexivity.
    + reflexivity.
  - destruct limit as [|[|[|limit]]]; try lia.
    pose proof (exec_reviewer_eq (stub_gen stub) st w) as He.
    unfold stub_gen in He at 2 3. cbn zeta in He. rewrite Hi in He.
    unfold route in He. rewrite Hno in He. cbn [orb] in He.
    destruct (Z.gtb_spec (i + 1) 5) as [Hgt|_]; [lia|]. cbv iota in He.
    rewrite (run_graph_exec _ _ _ _ _ _ _ _ He). clear He.
    match goal with
    | |- context [run_graph _ _ (Some handle_coder_node) ?s ?v] =>
        pose proof (exec_coder_eq (stub_gen stub) s v) as He;
        unfold stub_gen in He at 2; cbn zeta in He;
        rewrite (run_graph_exec _ _ _ _ _ _ _ _ He); clear He
    end.
    match goal with
    | |- context [run_graph _ _ (Some handle_reviewer_node) ?s ?v] =>
        destruct (IH (S limit) s v (i + 1)) as (st' & w' & Hrun & Hs & Hit);
        [reflexivity | lia | lia |]
    end.
    exists st', w'. split; [exact Hrun|]. split; [|exact Hit].
    rewrite Hs. cbn [steps after started rounds app].
    repeat rewrite <- app_assoc. reflexivity.
Qed.

(** C2: with a generator that answers and whose resolution-check responses
    never contain "yes", a run started with [iterations = 0] completes
    within the recursion limit after five review/revise round trips, a
    sixth Reviewer Step and the Finalizer: 6 Reviewer Step executions, 5
    Coder Step executions, [iterations = 6] at the end. *)
Theorem unresolved_feedback_six_reviews
  (stub : list string -> string -> string) (st : GraphState) (w : World) :
  never_resolved stub ->
  iterations st = Some 0 ->
  exists st' w',
    invoke (stub_gen stub) st 100 w = (inr st', w') /\
    steps w' = (steps w ++ rounds 5 ++ [handle_reviewer_node; handle_result_node])%list /\
    count_node handle_reviewer_node (steps w')
    = (count_node handle_reviewer_node (steps w) + 6)%nat /\
    count_node handle_coder_node (steps w')
    = (count_node handle_coder_node (steps w) + 5)%nat /\
    iterations st' = Some 6.
Proof.
  intros Hno Hi.
  destruct (unresolved_run stub Hno 5 100 st w 0 Hi) as (st' & w' & Hrun & Hs & Hit);
    [reflexivity | lia |].
  exists st', w'. split; [exact Hrun|]. split; [exact Hs|].
  rewrite Hs, !count_node_app. repeat split; try exact Hit; reflexivity.
Qed.

Lemma unresolved_feedback_six_reviews_witness :
  exists st' w',
    invoke (stub_gen (fun _ _ => "No.")) (initial_state "x") 100 init_world
    = (inr st', w') /\
    steps w' = ([] ++ rounds 5 ++ [handle_reviewer_node; handle_result_node])%list /\
    count_node handle_reviewer_node (steps w') = 6%nat /\
    count_node handle_coder_node (steps w') = 5%nat /\
    iterations st' = Some 6.
Proof.
  apply (unresolved_feedback_six_reviews (fun _ _ => "No.") (initial_state "x")
           init_world).
  - intros log c f. reflexivity.
  - reflexivity.
Defined.

(** C3, evaluated on the code: with a generator that answers "Yes, all
    issues resolved." the response contains "yes" under case-insensitive
    search but not as [deployment_ready] searches it, and the script's run
    goes through 6 Reviewer Step and 5 Coder Step executions and reaches the
    Finalizer with [iterations = 6]. *)
Theorem capital_Yes_answer_runs_to_the_cap :
  let gen := stub_gen (fun _ _ => "Yes, all issues resolved.") in
  spec_contains_yes_ci "Yes, all issues resolved." = true /\
  contains "yes" "Yes, all issues resolved." = false /\
  steps (snd (main_run gen init_world))
  = (rounds 5 ++ [handle_reviewer_node; handle_result_node])%list /\
  count_node handle_reviewer_node (steps (snd (main_run gen init_world))) = 6%nat /\
  count_node handle_coder_node (steps (snd (main_run gen init_world))) = 5%nat /\
  exists st', fst (main_run gen init_world) = inr st' /\ iterations st' = Some 6.
Proof.
  cbv zeta. repeat split; try (vm_compute; reflexivity).
  eexists. split; vm_compute; reflexivity.
Qed.

(** The same run with the answer in lower case stops after the first
    review. *)
Lemma lower_case_yes_answer_stops_at_once :
  let gen := stub_gen (fun _ _ => "yes, all issues resolved.") in
  steps (snd (main_run gen init_world)) = [handle_reviewer_node; handle_result_node] /\
  exists st', fst (main_run gen init_world) = inr st' /\ iterations st' = Some 1.
Proof.
  cbv zeta. split; [vm_compute; reflexivity|].
  eexists. split; vm_compute; reflexivity.
Qed.

(** ** Completion of the script *)

(** With a generator that answers, a run finishes once the counter has
    passed the cap, and the keys the script prints are then all set. *)
Lemma run_total (stub : list string -> string -> string) :
  forall (k limit : nat) (st : GraphState) (w : World) (i : Z),
    iterations st = Some i ->
    5 <= i + Z.of_nat k ->
    (2 * k + 3 <= limit)%nat ->
    present (code st) ->
    exists st' w',
      run_graph (stub_gen stub) limit (Some handle_reviewer_node) st w
      = (inr st', w') /\
      present (code st') /\ present (history st') /\ present (feedback st') /\
      present (rating st') /\ present (code_compare st').
Proof.
  assert (Hfin : forall limit st w,
             present (code st) -> present (history st) -> present (feedback st) ->
             exists st' w',
               run_graph (stub_gen stub) (S (S limit)) (Some handle_result_node) st w
               = (inr st', w') /\
               present (code st') /\ present (history st') /\ present (feedback st') /\
               present (rating st') /\ present (code_compare st')).
  { intros limit st w Hc Hh Hf. rewrite run_result_stub.
    eexists _, _. split; [reflexivity|].
    repeat split; try assumption; eexists; reflexivity. }
  induction k as [|k IH]; intros limit st w i Hi Hk Hlim Hc;
    (destruct limit as [|[|[|limit]]]; [lia | lia | lia |]);
    pose proof (exec_reviewer_eq (stub_gen stub) st w) as He;
    unfold stub_gen in He at 2 3; cbn zeta in He; rewrite Hi in He;
    rewrite (run_graph_exec _ _ _ _ _ _ _ _ He); clear He; unfold route.
  - destruct (Z.gtb_spec (i + 1) 5) as [_|Hle]; [|lia].
    rewrite orb_true_r. apply Hfin.
    + exact Hc.
    + eexists; reflexivity.
    + eexists; reflexivity.
  - match goal with |- context [if ?b then _ else _] => destruct b end.
    + apply Hfin; [exact Hc | eexists; reflexivity | eexists; reflexivity].
    + match goal with
      | |- context [run_graph _ _ (Some handle_coder_node) ?s ?v] =>
          pose proof (exec_coder_eq (stub_gen stub) s v) as He;
          unfold stub_gen in He at 2; cbn zeta in He;
          rewrite (run_graph_exec _ _ _ _ _ _ _ _ He); clear He
      end.
      match goal with
      | |- context [run_graph _ _ (Some handle_reviewer_node) ?s ?v] =>
          apply (IH (S limit) s v (i + 1)); [reflexivity | lia | lia | eexists; reflexivity]
      end.
Qed.

Lemma main_report_eq (conv : GraphState) (w : World) (c h f r cc : string) :
  code conv = Some c -> history conv = Some h -> feedback conv = Some f ->
  rating conv = Some r -> code_compare conv = Some cc ->
  main_report conv w
  = (inr tt, mkWorld (prompts w) (stdout w ++ [c; h; f; r; cc])%list (steps w)).
Proof.
  intros Hc Hh Hf Hr Hcc. unfold main_report, bind, getitem, print, ret.
  rewrite Hc, Hh, Hf, Hr, Hcc. cbn [prompts stdout steps].
  repeat rewrite <- app_assoc. reflexivity.
Qed.

Lemma main_run_stub (stub : list string -> string -> string) (w : World) :
  main_run (stub_gen stub) w
  = invoke (stub_gen stub) (initial_state (stub (prompts w) problem)) 100
      (after w [] [problem]).
Proof.
  unfold main_run, bind, llm, stub_gen, after. rewrite app_nil_r. reflexivity.
Qed.

(** C8: with a generator that answers, the script's run completes, and what
    the script prints after it is exactly five values in this order: the
    final [code], the [history], the final [feedback], the [rating] and the
    [code_compare] summary. *)
Theorem main_prints_five_values (stub : list string -> string -> string) :
  exists conv w1 c h f r cc,
    main_run (stub_gen stub) init_world = (inr conv, w1) /\
    code conv = Some c /\ history conv = Some h /\ feedback conv = Some f /\
    rating conv = Some r /\ code_compare conv = Some cc /\
    main (stub_gen stub) init_world
    = (inr tt, mkWorld (prompts w1) (stdout w1 ++ [c; h; f; r; cc])%list (steps w1)).
Proof.
  pose proof (main_run_stub stub init_world) as Hm.
  destruct (run_total stub 5 100 (initial_state (stub [] problem))
              (after init_world [] [problem]) 0)
    as (conv & w1 & Hrun & [c Hc] & [h Hh] & [f Hf] & [r Hr] & [cc Hcc]);
    [reflexivity | lia | lia | eexists; reflexivity |].
  cbn [prompts init_world] in Hm. unfold invoke in Hm. rewrite Hrun in Hm.
  exists conv, w1, c, h, f, r, cc.
  repeat (split; [assumption|]).
  unfold main, bind. rewrite Hm. apply main_report_eq; assumption.
Qed.

(** ** Shape of every completed run *)

Lemma run_graph_step_inv
  (gen : list string -> string -> option string)
  (limit : nat) (n : node) (st : GraphState) (w : World) st' w' :
  run_graph gen limit (Some n) st w = (inr st', w') ->
  exists limit' c1 st1 w1,
    limit = S limit' /\
    exec_node gen n st w = (inr (c1, st1), w1) /\
    run_graph gen limit' c1 st1 w1 = (inr st', w').
Proof.
  destruct limit as [|limit]; [discriminate|]. cbn [run_graph]. unfold bind.
  destruct (exec_node gen n st w) as [[e|[c1 st1]] w1]; [discriminate|].
  intros H. exists limit, c1, st1, w1. repeat split. exact H.
Qed.

Lemma route_cases (r : string) (i : Z) :
  (route r i = handle_result_node /\ (contains "yes" r = true \/ 5 < i)) \/
  (route r i = handle_coder_node /\ contains "yes" r = false /\ i <= 5).
Proof.
  unfold route. destruct (contains "yes" r); cbn [orb]; [left; auto|].
  destruct (Z.gtb_spec i 5); [left | right]; repeat split; auto; lia.
Qed.

Lemma run_shape (gen : list string -> string -> option string) :
  forall (limit : nat) (st : GraphState) (w : World) st' w' (i : Z),
    iterations st = Some i ->
    run_graph gen limit (Some handle_reviewer_node) st w = (inr st', w') ->
    exists (k : nat) (pre : list string),
      steps w' = (steps w ++ rounds k ++ [handle_reviewer_node; handle_result_node])%list /\
      iterations st' = Some (i + Z.of_nat k + 1) /\
      (k = O \/ i + Z.of_nat k <= 5) /\
      length (prompts w') = (length (prompts w) + 3 * k + 4)%nat /\
      prompts w' = (pre ++ [rating_prompt (field (history st'));
                            comparison_prompt (field (code st'))
                              (field (actual_code st))])%list /\
      specialization st' = specialization st /\
      actual_code st' = actual_code st.
Proof.
  induction limit as [limit IH] using lt_wf_ind.
  intros st w st' w' i Hi Hrun.
  apply run_graph_step_inv in Hrun.
  destruct Hrun as (l1 & c1 & st1 & w1 & -> & He & Hrun).
  apply exec_reviewer_inv in He.
  destruct He as (f & i' & r & _ & Hi' & _ & -> & -> & ->).
  rewrite Hi in Hi'. inversion Hi'; subst i'. clear Hi'.
  destruct (route_cases r (i + 1)) as [[Hr _] | (Hr & _ & Hle)];
    rewrite Hr in Hrun; clear Hr.
  - apply run_graph_step_inv in Hrun.
    destruct Hrun as (l2 & c2 & st2 & w2 & -> & He & Hrun).
    apply exec_result_inv in He.
    destruct He as (ra & cc & _ & _ & -> & -> & ->).
    destruct l2 as [|l2]; [discriminate|].
    rewrite run_graph_end in Hrun. inversion Hrun; subst st' w'. clear Hrun.
    exists O. eexists. cbn [rounds app].
    split; [|split; [|split; [|split; [|split; [|split]]]]]; try reflexivity.
    + cbn [steps after started]. rewrite <- app_assoc. reflexivity.
    + cbn. f_equal. lia.
    + left; reflexivity.
    + cbn [prompts after started]. rewrite !length_app. cbn [length]. lia.
  - apply run_graph_step_inv in Hrun.
    destruct Hrun as (l2 & c2 & st2 & w2 & -> & He & Hrun).
    apply exec_coder_inv in He.
    destruct He as (c & _ & -> & -> & ->).
    apply (IH l2 ltac:(lia)) with (i := i + 1) in Hrun; [|reflexivity].
    destruct Hrun as (k & pre & Hs & Hit & Hk & Hlen & Hp & Hsp & Hac).
    exists (S k), pre.
    split; [|split; [|split; [|split; [|split; [|split]]]]].
    + rewrite Hs. cbn [steps after started rounds app].
      repeat rewrite <- app_assoc. reflexivity.
    + rewrite Hit. f_equal. lia.
    + right. destruct Hk as [-> | Hk]; lia.
    + rewrite Hlen. cbn [prompts after started]. rewrite !length_app.
      cbn [length]. lia.
    + exact Hp.
    + exact Hsp.
    + exact Hac.
Qed.

Lemma count_node_rounds (k : nat) :
  count_node handle_reviewer_node (rounds k) = k /\
  count_node handle_coder_node (rounds k) = k /\
  count_node handle_result_node (rounds k) = O.
Proof.
  induction k as [|k (IH1 & IH2 & IH3)]; [repeat split|].
  unfold count_node in *. cbn [rounds filter node_eqb length].
  rewrite IH1, IH2, IH3. repeat split.
Qed.

(** X1: whatever the generator answers, a run that starts with
    [iterations = 0] and completes has executed [k] review/revise round
    trips for some [k <= 5], then one more Reviewer Step and the Finalizer,
    in that order and nothing else: between 1 and 6 Reviewer Steps, one
    Coder Step fewer, and the counter ends at the number of Reviewer
    Steps. *)
Theorem completed_run_trace
  (gen : list string -> string -> option string)
  (st : GraphState) (w : World) (limit : nat) st' w' :
  iterations st = Some 0 ->
  invoke gen st limit w = (inr st', w') ->
  exists k : nat,
    (k <= 5)%nat /\
    steps w' = (steps w ++ rounds k ++ [handle_reviewer_node; handle_result_node])%list /\
    count_node handle_reviewer_node (steps w')
    = (count_node handle_reviewer_node (steps w) + k + 1)%nat /\
    count_node handle_coder_node (steps w')
    = (count_node handle_coder_node (steps w) + k)%nat /\
    count_node handle_result_node (steps w')
    = (count_node handle_result_node (steps w) + 1)%nat /\
    iterations st' = Some (Z.of_nat k + 1).
Proof.
  intros Hi Hrun. unfold invoke in Hrun.
  destruct (run_shape gen limit st w st' w' 0 Hi Hrun)
    as (k & pre & Hs & Hit & Hk & _).
  destruct (count_node_rounds k) as (C1 & C2 & C3).
  exists k. split; [lia|]. split; [exact Hs|].
  rewrite Hs, !count_node_app, C1, C2, C3.
  repeat split; try (unfold count_node; cbn; lia).
  rewrite Hit. f_equal.
Qed.

Lemma completed_run_trace_witness :
  exists st' w' k,
    invoke (stub_gen (fun _ _ => "yes")) (initial_state "x") 100 init_world
    = (inr st', w') /\
    (k <= 5)%nat /\
    steps w' = ([] ++ rounds k ++ [handle_reviewer_node; handle_result_node])%list /\
    count_node handle_reviewer_node (steps w') = (0 + k + 1)%nat /\
    count_node handle_coder_node (steps w') = (0 + k)%nat /\
    count_node handle_result_node (steps w') = (0 + 1)%nat /\
    iterations st' = Some (Z.of_nat k + 1).
Proof.
  eexists _, _.
  assert (H : invoke (stub_gen (fun _ _ => "yes")) (initial_state "x") 100 init_world
              = (inr _, _)) by (vm_compute; reflexivity).
  destruct (completed_run_trace (stub_gen (fun _ _ => "yes")) (initial_state "x")
              init_world 100 _ _ eq_refl H) as (k & Hk).
  exists k. split; [exact H | exact Hk].
Defined.

Lemma main_run_inv
  (gen : list string -> string -> option string) (w : World) conv w' :
  main_run gen w = (inr conv, w') ->
  exists code0,
    gen (prompts w) problem = Some code0 /\
    invoke gen (initial_state code0) 100 (after w [] [problem]) = (inr conv, w').
Proof.
  unfold main_run, bind, llm, after. rewrite app_nil_r.
  destruct (gen (prompts w) problem) as [code0|]; [|discriminate].
  intros H. exists code0. split; [reflexivity | exact H].
Qed.

(** X2: a completed run of the script has called the generator exactly
    [3 * k + 5] times, where [k <= 5] is the number of Coder Step
    executions: at least 5 and at most 20 calls. *)
Theorem main_run_generator_calls
  (gen : list string -> string -> option string) conv w' :
  main_run gen init_world = (inr conv, w') ->
  exists k : nat,
    count_node handle_coder_node (steps w') = k /\
    length (prompts w') = (3 * k + 5)%nat /\
    (5 <= length (prompts w') <= 20)%nat.
Proof.
  intros H. apply main_run_inv in H. destruct H as (code0 & _ & Hrun).
  unfold invoke in Hrun.
  destruct (run_shape gen 100 (initial_state code0) _ _ _ 0 eq_refl Hrun)
    as (k & pre & Hs & _ & Hk & Hlen & _).
  destruct (count_node_rounds k) as (_ & C2 & _).
  exists k. cbn [prompts steps after init_world length app] in Hs, Hlen.
  split; [|split; [|split]]; try lia.
  rewrite Hs, count_node_app, C2. unfold count_node; cbn; lia.
Qed.

Lemma main_run_generator_calls_witness :
  exists conv w' k,
    main_run (stub_gen (fun _ _ => "No.")) init_world = (inr conv, w') /\
    count_node handle_coder_node (steps w') = k /\
    length (prompts w') = (3 * k + 5)%nat /\
    (5 <= length (prompts w') <= 20)%nat.
Proof.
  eexists _, _.
  assert (H : main_run (stub_gen (fun _ _ => "No.")) init_world = (inr _, _))
    by (vm_compute; reflexivity).
  destruct (main_run_generator_calls _ _ _ H) as (k & Hk).
  exists k. split; [exact H | exact Hk].
Defined.

(** X3: in a completed run of the script the last two prompts submitted are
    the rating prompt over the stripped final transcript and the comparison
    prompt over the stripped final code and the stripped first draft: the
    state still holds the first draft as [actual_code] and "python" as
    [specialization]. *)
Theorem main_run_compares_with_first_draft
  (gen : list string -> string -> option string) conv w' :
  main_run gen init_world = (inr conv, w') ->
  exists code0 pre,
    gen [] problem = Some code0 /\
    actual_code conv = Some code0 /\
    specialization conv = Some "python" /\
    prompts w' =
    (pre ++ [rating_prompt (strip (get_or_empty (history conv)));
             comparison_prompt (strip (get_or_empty (code conv))) (strip code0)])%list.
Proof.
  intros H. apply main_run_inv in H. destruct H as (code0 & Hg & Hrun).
  unfold invoke in Hrun.
  destruct (run_shape gen 100 (initial_state code0) _ _ _ 0 eq_refl Hrun)
    as (k & pre & _ & _ & _ & _ & Hp & Hsp & Hac).
  exists code0, pre. split; [exact Hg|]. split; [exact Hac|]. split; [exact Hsp|].
  exact Hp.
Qed.

Lemma main_run_compares_with_first_draft_witness :
  exists conv w' code0 pre,
    main_run (stub_gen (fun _ _ => "yes")) init_world = (inr conv, w') /\
    stub_gen (fun _ _ => "yes") [] problem = Some code0 /\
    actual_code conv = Some code0 /\
    specialization conv = Some "python" /\
    prompts w' =
    (pre ++ [rating_prompt (strip (get_or_empty (history conv)));
             comparison_prompt (strip (get_or_empty (code conv))) (strip code0)])%list.
Proof.
  eexists _, _.
  assert (H : main_run (stub_gen (fun _ _ => "yes")) init_world = (inr _, _))
    by (vm_compute; reflexivity).
  destruct (main_run_compares_with_first_draft _ _ _ H) as (code0 & pre & Hk).
  exists code0, pre. split; [exact H | exact Hk].
Defined.

(** ** Failure modes of the script *)





(** ** The resolution check as the code performs it *)

Lemma contains_app_l (pat a s : string) :
  contains pat s = true -> contains pat (a ++ s) = true.
Proof.
  intros H. induction a as [|c a IH]; [exact H|].
  cbn [append contains]. rewrite IH. apply orb_true_r.
Qed.

Lemma contains_intro (pat a b : string) : contains pat (a ++ pat ++ b) = true.
Proof.
  apply contains_app_l.
  destruct (pat ++ b) eqn:E; cbn [contains]; rewrite <- E, prefix_append; reflexivity.
Qed.

Lemma prefix_split (p s : string) :
  String.prefix p s = true -> exists b, s = p ++ b.
Proof.
  revert s. induction p as [|c p IH]; intros s H.
  - exists s. reflexivity.
  - destruct s as [|d s]; [discriminate|]. cbn [String.prefix] in H.
    destruct (ascii_dec c d) as [->|]; [|discriminate].
    destruct (IH s H) as [b ->]. exists b. reflexivity.
Qed.

Lemma contains_elim (pat s : string) :
  contains pat s = true -> exists a b, s = a ++ pat ++ b.
Proof.
  induction s as [|c s IH]; cbn [contains]; intros H.
  - rewrite orb_false_r in H. apply prefix_split in H. destruct H as [b ->].
    exists "", b. reflexivity.
  - apply orb_true_iff in H. destruct H as [H|H].
    + apply prefix_split in H. destruct H as [b ->]. exists "", b. reflexivity.
    + destruct (IH H) as (a & b & ->). exists (String c a), b. reflexivity.
Qed.

(** X5: the policy sends the run to the Finalizer exactly when the counter
    is above 5 or the response has the letters "yes" somewhere in it, in
    lower case, also inside a longer word or sentence. *)
Theorem deployment_ready_fires_on_any_occurrence
  (stub : list string -> string -> string) (st : GraphState) (w : World) (i : Z) :
  iterations st = Some i ->
  let r := stub (prompts w) (classify_prompt (str_of (code st)) (str_of (feedback st))) in
  fst (deployment_ready (stub_gen stub) st w) = inr "handle_result"
  <-> (5 < i \/ exists a b, r = a ++ "yes" ++ b).
Proof.
  intros Hi r. rewrite deployment_ready_eq. unfold stub_gen. cbn zeta.
  rewrite Hi. fold r. cbn [fst]. split.
  - destruct (contains "yes" r) eqn:Hc.
    + intros _. right. apply contains_elim. exact Hc.
    + destruct (Z.gtb_spec i 5); cbn [orb]; [left; lia | discriminate].
  - intros [Hgt | (a & b & Hr)].
    + destruct (Z.gtb_spec i 5); [|lia]. rewrite orb_true_r. reflexivity.
    + rewrite Hr, contains_intro. reflexivity.
Qed.

Lemma deployment_ready_fires_on_any_occurrence_witness :
  fst (deployment_ready (stub_gen (fun _ _ => "I have eyes on it"))
         state_after_first_review init_world) = inr "handle_result".
Proof.
  apply (deployment_ready_fires_on_any_occurrence
           (fun _ _ => "I have eyes on it") state_after_first_review init_world 1
           eq_refl).
  right. exists "I have e", " on it". reflexivity.
Defined.

(** X6: if the first resolution check is answered with a response that
    contains "yes" in lower case and the recursion limit is at least 3, the
    run is one Reviewer Step and the Finalizer: no Coder Step, the code as it was, the counter one higher,
    and the transcript the stripped input transcript with the one review
    appended. *)
Theorem first_check_yes_stops_the_run
  (stub : list string -> string -> string) (st : GraphState) (w : World)
  (i : Z) (limit : nat) :
  let p := reviewer_prompt (strip (get_or_empty (specialization st)))
             (strip (get_or_empty (code st))) in
  let f := stub (prompts w) p in
  let q := classify_prompt (str_of (code st)) f in
  iterations st = Some i ->
  contains "yes" (stub (prompts w ++ [p])%list q) = true ->
  (3 <= limit)%nat ->
  exists st' w',
    invoke (stub_gen stub) st limit w = (inr st', w') /\
    steps w' = (steps w ++ [handle_reviewer_node; handle_result_node])%list /\
    iterations st' = Some (i + 1) /\
    code st' = code st /\
    feedback st' = Some f /\
    history st' = Some (strip (get_or_empty (history st))
                        ++ nl ++ " REVIEWER:" ++ nl ++ f).
Proof.
  intros p f q Hi Hyes Hlim.
  destruct limit as [|[|[|limit]]]; [lia | lia | lia |].
  unfold invoke.
  pose proof (exec_reviewer_eq (stub_gen stub) st w) as He.
  unfold stub_gen in He at 2 3. cbn zeta in He. rewrite Hi in He.
  subst q f p. unfold route, field in He. rewrite Hyes in He. cbn [orb] in He.
  rewrite (run_graph_exec _ _ _ _ _ _ _ _ He), run_result_stub.
  eexists _, _. split; [reflexivity|].
  split; [|repeat split].
  cbn [steps after started]. rewrite <- app_assoc. reflexivity.
Qed.

Lemma first_check_yes_stops_the_run_witness :
  exists st' w',
    invoke (stub_gen (fun _ _ => "yes")) (initial_state "x") 100 init_world
    = (inr st', w') /\
    steps w' = ([] ++ [handle_reviewer_node; handle_result_node])%list /\
    iterations st' = Some (0 + 1) /\
    code st' = Some "x" /\
    feedback st' = Some "yes" /\
    history st' = Some (strip "x" ++ nl ++ " REVIEWER:" ++ nl ++ "yes").
Proof.
  apply (first_check_yes_stops_the_run (fun _ _ => "yes") (initial_state "x")
           init_world 0 100).
  - reflexivity.
  - reflexivity.
  - lia.
Defined.

(** With a limit of 2 the same run executes both nodes and then raises:
    the budget is used up when the executor gets to [END]. *)
Lemma limit_two_is_not_enough :
  fst (invoke (stub_gen (fun _ _ => "yes")) (initial_state "x") 2 init_world)
  = inl GraphRecursionError /\
  steps (snd (invoke (stub_gen (fun _ _ => "yes")) (initial_state "x") 2 init_world))
  = [handle_reviewer_node; handle_result_node].
Proof. split; reflexivity. Qed.

(** ** Transcripts of runs whose texts carry no surrounding whitespace *)

Lemma str_app_assoc (a b c : string) : (a ++ b) ++ c = a ++ b ++ c.
Proof.
  induction a as [|x a IH]; simpl; [reflexivity | now rewrite IH].
Qed.

Lemma lstrip_length (s : string) : (String.length (lstrip s) <= String.length s)%nat.
Proof.
  induction s as [|c s IH]; simpl; [lia|].
  destruct (isspace c); simpl; lia.
Qed.

Lemma rstrip_length (s : string) : (String.length (rstrip s) <= String.length s)%nat.
Proof.
  induction s as [|c s IH]; simpl; [lia|].
  destruct (rstrip s); [destruct (isspace c)|]; simpl in *; lia.
Qed.

Lemma lstrip_fixed (s : string) :
  String.length (lstrip s) = String.length s -> lstrip s = s.
Proof.
  destruct s as [|c s]; simpl; [reflexivity|].
  destruct (isspace c); [|reflexivity].
  pose proof (lstrip_length s). lia.
Qed.

Lemma strip_fixed (s : string) : strip s = s -> lstrip s = s /\ rstrip s = s.
Proof.
  unfold strip. intros H.
  assert (Hl : lstrip s = s).
  { apply lstrip_fixed. pose proof (lstrip_length s).
    pose proof (rstrip_length (lstrip s)). rewrite H in *. lia. }
  rewrite Hl in H. split; assumption.
Qed.

Lemma lstrip_app (a x : string) : a <> "" -> lstrip a = a -> lstrip (a ++ x) = a ++ x.
Proof.
  destruct a as [|c a]; [congruence|]. intros _. simpl.
  destruct (isspace c); [|reflexivity].
  intros H. pose proof (lstrip_length a). rewrite H in *. simpl in *. lia.
Qed.

Lemma rstrip_app (a x : string) : rstrip x <> "" -> rstrip (a ++ x) = a ++ rstrip x.
Proof.
  intros Hx. induction a as [|c a IH]; [reflexivity|].
  simpl. rewrite IH. destruct (a ++ rstrip x) eqn:E; [|reflexivity].
  destruct a; simpl in E; [congruence | discriminate].
Qed.

Lemma strip_app (a mid b : string) :
  trimmed a -> trimmed b -> trimmed (a ++ mid ++ b).
Proof.
  intros [Ha Hsa] [Hb Hsb].
  apply strip_fixed in Hsa. apply strip_fixed in Hsb.
  destruct Hsa as [Hla _]. destruct Hsb as [_ Hrb].
  split.
  - destruct a; [congruence | discriminate].
  - unfold strip. rewrite (lstrip_app a _ Ha Hla).
    rewrite <- str_app_assoc, rstrip_app; rewrite Hrb; [reflexivity | exact Hb].
Qed.

Lemma trimmed_tagged (a tag b : string) :
  trimmed a -> trimmed b -> trimmed (a ++ nl ++ tag ++ nl ++ b).
Proof.
  intros Ha Hb.
  replace (a ++ nl ++ tag ++ nl ++ b) with (a ++ (nl ++ tag ++ nl) ++ b).
  - apply strip_app; assumption.
  - now rewrite !str_app_assoc.
Qed.

Lemma prefix_app_r (p s x : string) :
  String.prefix p s = true -> String.prefix p (s ++ x) = true.
Proof.
  intros H. apply prefix_split in H. destruct H as [b ->].
  rewrite str_app_assoc. apply prefix_append.
Qed.

(** X7: when the input transcript and every text the generator returns are
    non-empty and free of leading and trailing whitespace, the transcript is
    append-only over the whole run: at every reachable state it is again
    such a text, the input transcript is a prefix of it, and the next
    Reviewer or Coder Step extends it by the tag and the step's output and
    changes nothing before. *)
Theorem trimmed_run_history_append_only
  (stub : list string -> string -> string)
  (st0 : GraphState) (w0 : World) (h0 : string) c st w :
  (forall log p, trimmed (stub log p)) ->
  history st0 = Some h0 ->
  trimmed h0 ->
  reachable (stub_gen stub) st0 w0 c st w ->
  exists h,
    history st = Some h /\ trimmed h /\ String.prefix h0 h = true /\
    forall n c' st' w',
      exec_node (stub_gen stub) n st w = (inr (c', st'), w') ->
      match n with
      | handle_reviewer_node =>
          exists f, feedback st' = Some f /\
                    history st' = Some (h ++ nl ++ " REVIEWER:" ++ nl ++ f)
      | handle_coder_node =>
          exists c0, code st' = Some c0 /\
                     history st' = Some (h ++ nl ++ " CODER:" ++ nl ++ c0)
      | handle_result_node => history st' = Some h
      end.
Proof.
  intros Hstub H0 Ht0 Hr.
  assert (Hstep : forall st w h n c' st' w',
             history st = Some h -> trimmed h ->
             exec_node (stub_gen stub) n st w = (inr (c', st'), w') ->
             match n with
             | handle_reviewer_node =>
                 exists f, trimmed f /\ feedback st' = Some f /\
                           history st' = Some (h ++ nl ++ " REVIEWER:" ++ nl ++ f)
             | handle_coder_node =>
                 exists c0, trimmed c0 /\ code st' = Some c0 /\
                            history st' = Some (h ++ nl ++ " CODER:" ++ nl ++ c0)
             | handle_result_node => history st' = Some h
             end).
  { clear - Hstub. intros st w h n c' st' w' Hh [_ Hs] He. destruct n.
    - apply exec_reviewer_inv in He.
      destruct He as (f & i & r & Hf & _ & _ & _ & -> & _).
      exists f. unfold field. rewrite Hh. cbn [get_or_empty]. rewrite Hs.
      split; [|split; reflexivity].
      unfold stub_gen in Hf. inversion Hf. apply Hstub.
    - apply exec_coder_inv in He.
      destruct He as (c0 & Hc & _ & -> & _).
      exists c0. unfold field. rewrite Hh. cbn [get_or_empty]. rewrite Hs.
      split; [|split; reflexivity].
      unfold stub_gen in Hc. inversion Hc. apply Hstub.
    - apply exec_result_inv in He.
      destruct He as (r & cc & _ & _ & _ & -> & _). exact Hh. }
  induction Hr as [|n st w c' st' w' Hr IH He].
  - exists h0. split; [exact H0|]. split; [exact Ht0|]. split.
    + rewrite <- (append_empty_r h0) at 2. apply prefix_append.
    + intros n c' st' w' He.
      pose proof (Hstep _ _ _ _ _ _ _ H0 Ht0 He) as Hn.
      destruct n; [destruct Hn as (f & _ & Hn); exists f; exact Hn
                  | destruct Hn as (f & _ & Hn); exists f; exact Hn | exact Hn].
  - destruct IH as (h & Hh & Hth & Hp & _).
    pose proof (Hstep _ _ _ _ _ _ _ Hh Hth He) as Hn.
    assert (Hnew : exists h', history st' = Some h' /\ trimmed h' /\
                              String.prefix h0 h' = true).
    { destruct n.
      - destruct Hn as (f & Hf & _ & Hn). eexists. split; [exact Hn|].
        split; [apply trimmed_tagged; assumption | apply prefix_app_r; exact Hp].
      - destruct Hn as (f & Hf & _ & Hn). eexists. split; [exact Hn|].
        split; [apply trimmed_tagged; assumption | apply prefix_app_r; exact Hp].
      - exists h. repeat split; try assumption; apply Hth. }
    destruct Hnew as (h' & Hh' & Hth' & Hp').
    exists h'. split; [exact Hh'|]. split; [exact Hth'|]. split; [exact Hp'|].
    intros n2 c2 st2 w2 He2.
    pose proof (Hstep _ _ _ _ _ _ _ Hh' Hth' He2) as Hn2.
    destruct n2; [destruct Hn2 as (f & _ & Hn2); exists f; exact Hn2
                 | destruct Hn2 as (f & _ & Hn2); exists f; exact Hn2 | exact Hn2].
Qed.

Lemma trimmed_run_history_append_only_witness :
  exists h,
    history (initial_state "x") = Some h /\ trimmed h /\ String.prefix "x" h = true /\
    forall n c' st' w',
      exec_node (stub_gen (fun _ _ => "ok")) n (initial_state "x") init_world
      = (inr (c', st'), w') ->
      match n with
      | handle_reviewer_node =>
          exists f, feedback st' = Some f /\
                    history st' = Some (h ++ nl ++ " REVIEWER:" ++ nl ++ f)
      | handle_coder_node =>
          exists c0, code st' = Some c0 /\
                     history st' = Some (h ++ nl ++ " CODER:" ++ nl ++ c0)
      | handle_result_node => history st' = Some h
      end.
Proof.
  apply (trimmed_run_history_append_only (fun _ _ => "ok") (initial_state "x")
           init_world "x" (Some handle_reviewer_node) (initial_state "x") init_world).
  - intros log p. split; [discriminate | reflexivity].
  - reflexivity.
  - split; [discriminate | reflexivity].
  - apply reach_entry.
Defined.

(** ** [remove_duplicates] *)

Section RemoveDuplicates.

Local Open Scope list_scope.

Context {V : Type}.
Variable veq : V -> V -> bool.
Variable hashable : V -> bool.
Variable as_frozenset : V -> option V.

Lemma ForallOrdPairs_snoc (R : V -> V -> Prop) (l : list V) (a : V) :
  ForallOrdPairs R l -> Forall (fun x => R x a) l -> ForallOrdPairs R (l ++ [a]).
Proof.
  induction 1 as [|x l Hx Hl IH]; intros Ha; simpl.
  - constructor; constructor.
  - inversion Ha; subst. constructor.
    + apply Forall_app. split; [exact Hx | constructor; [assumption | constructor]].
    + apply IH. assumption.
Qed.

Lemma set_mem_false (seen : list V) (key : V) :
  set_mem veq seen key = false -> forall x, In x seen -> veq x key = false.
Proof.
  unfold set_mem. intros H x Hx.
  destruct (veq x key) eqn:E; [|reflexivity].
  assert (existsb (fun x => veq x key) seen = true)
    by (apply existsb_exists; exists x; split; assumption).
  congruence.
Qed.

Lemma set_mem_true (seen : list V) (key : V) :
  set_mem veq seen key = true -> exists x, In x seen /\ veq x key = true.
Proof. unfold set_mem. intros H. apply existsb_exists in H. exact H. Qed.

Lemma set_mem_none (seen : list V) (key : V) :
  (forall x, In x seen -> veq x key = false) -> set_mem veq seen key = false.
Proof.
  intros H. unfold set_mem. destruct (existsb _ seen) eqn:E; [|reflexivity].
  apply existsb_exists in E. destruct E as (x & Hx & Hv).
  rewrite (H x Hx) in Hv. discriminate.
Qed.

Lemma probe_none_unhashable (item : V) :
  probe hashable as_frozenset item = None -> hashable item = false.
Proof. unfold probe. destruct (hashable item); [discriminate | reflexivity]. Qed.

(** The three ways one round of the remove_duplicates_loop veq hashable as_frozenset can go. *)
Lemma loop_step (item : V) (rest seen result : list V)
  (log : list (log_level * string)) :
  (exists key, probe hashable as_frozenset item = Some key /\
               set_mem veq seen key = true /\
               remove_duplicates_loop veq hashable as_frozenset (item :: rest) seen result log = remove_duplicates_loop veq hashable as_frozenset rest seen result log) \/
  (exists key, probe hashable as_frozenset item = Some key /\
               set_mem veq seen key = false /\ hashable item = true /\
               remove_duplicates_loop veq hashable as_frozenset (item :: rest) seen result log
               = remove_duplicates_loop veq hashable as_frozenset rest (seen ++ [item]) (result ++ [item]) log) \/
  ((probe hashable as_frozenset item = None \/
    exists key, probe hashable as_frozenset item = Some key /\
                set_mem veq seen key = false) /\
   hashable item = false /\
   remove_duplicates_loop veq hashable as_frozenset (item :: rest) seen result log
   = remove_duplicates_loop veq hashable as_frozenset rest seen (result ++ [item]) (log_record LWARNING unhashable_warning log)).
Proof.
  cbn [remove_duplicates_loop]. unfold set_contains, set_add.
  destruct (probe hashable as_frozenset item) as [key|] eqn:Ep.
  - destruct (set_mem veq seen key) eqn:Em.
    + left. exists key. repeat split; assumption.
    + destruct (hashable item) eqn:Eh.
      * right. left. exists key. repeat split; assumption.
      * right. right. split; [right; exists key; split; [reflexivity | exact Em]|].
        split; reflexivity.
  - right. right. split; [left; reflexivity|].
    split; [apply probe_none_unhashable; exact Ep | reflexivity].
Qed.

Lemma remove_duplicates_loop_unseen (data : list V) :
  forall seen result log,
    (forall x, In x result -> hashable x = true -> In x seen) ->
    ForallOrdPairs (unseen_pair veq hashable as_frozenset) result ->
    ForallOrdPairs (unseen_pair veq hashable as_frozenset) (fst (remove_duplicates_loop veq hashable as_frozenset data seen result log)).
Proof.
  induction data as [|item rest IH]; intros seen result log Hseen Hres; [exact Hres|].
  destruct (loop_step item rest seen result log)
    as [(key & Ep & Em & ->) | [(key & Ep & Em & Eh & ->) | (Ep & Eh & ->)]].
  - apply IH; assumption.
  - apply IH.
    + intros x Hx Hhx. apply in_app_iff in Hx. apply in_app_iff.
      destruct Hx as [Hx|Hx]; [left; apply Hseen; assumption | right; exact Hx].
    + apply ForallOrdPairs_snoc; [exact Hres|].
      apply Forall_forall. intros x Hx Hhx k Hk.
      rewrite Ep in Hk. inversion Hk; subst k.
      apply (set_mem_false seen key Em). apply Hseen; assumption.
  - apply IH.
    + intros x Hx Hhx. apply in_app_iff in Hx.
      destruct Hx as [Hx|[<-|[]]]; [apply Hseen; assumption | congruence].
    + apply ForallOrdPairs_snoc; [exact Hres|].
      apply Forall_forall. intros x Hx Hhx k Hk.
      destruct Ep as [Ep | (key & Ep & Em)]; rewrite Ep in Hk; [discriminate|].
      inversion Hk; subst k.
      apply (set_mem_false seen key Em). apply Hseen; assumption.
Qed.

(** X8: in the list [remove_duplicates] returns, the membership test for an
    element never finds a hashable element before it: no hashable element
    is equal to an earlier hashable one, and no unhashable set has the
    elements of an earlier frozenset. *)
Theorem remove_duplicates_distinct (data : list V) :
  ForallOrdPairs (unseen_pair veq hashable as_frozenset) (fst (remove_duplicates veq hashable as_frozenset data)).
Proof.
  apply remove_duplicates_loop_unseen; [intros x [] | constructor].
Qed.

Lemma remove_duplicates_loop_keeps (l : list V) :
  forall seen result log,
    ForallOrdPairs (unseen_pair veq hashable as_frozenset) l ->
    (forall x y key, In x seen -> In y l ->
                     probe hashable as_frozenset y = Some key -> veq x key = false) ->
    (forall x, In x seen -> hashable x = true) ->
    fst (remove_duplicates_loop veq hashable as_frozenset l seen result log) = result ++ l.
Proof.
  induction l as [|item rest IH]; intros seen result log Hl Hseen Hhs;
    [cbn; now rewrite app_nil_r|].
  inversion Hl as [|? ? Hitem Hrest]; subst.
  replace (result ++ item :: rest) with ((result ++ [item]) ++ rest)
    by (rewrite <- app_assoc; reflexivity).
  assert (Hrest_seen : forall x y key, In x seen -> In y rest ->
            probe hashable as_frozenset y = Some key -> veq x key = false)
    by (intros x y key Hx Hy; apply Hseen; [exact Hx | right; exact Hy]).
  destruct (loop_step item rest seen result log)
    as [(key & Ep & Em & ->) | [(key & Ep & Em & Eh & ->) | (Ep & Eh & ->)]].
  - rewrite set_mem_none in Em; [discriminate|].
    intros x Hx. apply (Hseen x item key Hx (or_introl eq_refl) Ep).
  - apply IH; [exact Hrest| |].
    + intros x y k Hx Hy Hk. apply in_app_iff in Hx. destruct Hx as [Hx|[<-|[]]].
      * apply (Hrest_seen x y k Hx Hy Hk).
      * rewrite Forall_forall in Hitem. apply (Hitem y Hy Eh k Hk).
    + intros x Hx. apply in_app_iff in Hx.
      destruct Hx as [Hx|[<-|[]]]; [apply Hhs; exact Hx | exact Eh].
  - apply IH; [exact Hrest | exact Hrest_seen | exact Hhs].
Qed.

(** X9: [remove_duplicates] returns a list that a second pass leaves as it
    is. *)
Theorem remove_duplicates_idempotent (data : list V) :
  fst (remove_duplicates veq hashable as_frozenset
         (fst (remove_duplicates veq hashable as_frozenset data)))
  = fst (remove_duplicates veq hashable as_frozenset data).
Proof.
  unfold remove_duplicates at 1.
  rewrite remove_duplicates_loop_keeps; [reflexivity | | |].
  - apply remove_duplicates_loop_unseen; [intros x [] | constructor].
  - intros x y key [].
  - intros x [].
Qed.

Lemma remove_duplicates_loop_subseq (data : list V) :
  forall seen result log,
    exists kept,
      remove_duplicates_loop veq hashable as_frozenset data seen result log
      = (result ++ kept,
         log ++ repeat (LWARNING, unhashable_warning)
                  (length (filter (fun x => negb (hashable x)) kept))) /\
      subseq kept data /\
      filter (unprobed hashable as_frozenset) kept
      = filter (unprobed hashable as_frozenset) data.
Proof.
  induction data as [|item rest IH]; intros seen result log.
  - exists []. cbn. rewrite !app_nil_r. repeat split. constructor.
  - assert (Hu : forall key, probe hashable as_frozenset item = Some key ->
                             unprobed hashable as_frozenset item = false)
      by (intros key Ep; unfold unprobed; rewrite Ep; reflexivity).
    destruct (loop_step item rest seen result log)
      as [(key & Ep & Em & ->) | [(key & Ep & Em & Eh & ->) | (Ep & Eh & ->)]].
    + destruct (IH seen result log) as (kept & -> & Hs & Hf).
      exists kept. split; [reflexivity|]. split; [now constructor|].
      cbn [filter]. rewrite (Hu key Ep). exact Hf.
    + destruct (IH (seen ++ [item]) (result ++ [item]) log) as (kept & -> & Hs & Hf).
      exists (item :: kept). cbn [filter]. rewrite Eh, (Hu key Ep). cbn [negb].
      split; [now rewrite <- app_assoc|]. split; [now constructor | exact Hf].
    + destruct (IH seen (result ++ [item])
                  (log_record LWARNING unhashable_warning log))
        as (kept & -> & Hs & Hf).
      exists (item :: kept). cbn [filter]. rewrite Eh. cbn [negb length repeat].
      unfold log_record. cbn [level_enabled].
      split; [now rewrite <- !app_assoc|]. split; [now constructor|].
      destruct (unprobed hashable as_frozenset item); rewrite Hf; reflexivity.
Qed.

Lemma remove_duplicates_loop_covers (data : list V) :
  forall seen result log,
    (forall x, In x seen -> In x result) ->
    forall y, In y data ->
      let final := fst (remove_duplicates_loop veq hashable as_frozenset data seen result log) in
      In y final \/
      exists x key, In x final /\ probe hashable as_frozenset y = Some key /\
                    veq x key = true.
Proof.
  induction data as [|item rest IH]; intros seen result log Hseen y Hy; [destruct Hy|].
  cbv zeta.
  assert (Hpre : forall seen' result' log' x,
             In x result' -> In x (fst (remove_duplicates_loop veq hashable as_frozenset rest seen' result' log'))).
  { intros seen' result' log' x Hx.
    destruct (remove_duplicates_loop_subseq rest seen' result' log') as (kept & -> & _).
    apply in_app_iff. left. exact Hx. }
  destruct (loop_step item rest seen result log)
    as [(key & Ep & Em & ->) | [(key & Ep & Em & Eh & ->) | (Ep & Eh & ->)]];
    destruct Hy as [<-|Hy].
  - right. apply set_mem_true in Em. destruct Em as (x & Hx & Hv).
    exists x, key. split; [apply Hpre, Hseen, Hx | split; assumption].
  - apply IH; assumption.
  - left. apply Hpre. apply in_app_iff. right. left. reflexivity.
  - apply IH; [|exact Hy].
    intros x Hx. apply in_app_iff in Hx. apply in_app_iff.
    destruct Hx as [Hx|Hx]; [left; apply Hseen; exact Hx | right; exact Hx].
  - left. apply Hpre. apply in_app_iff. right. left. reflexivity.
  - apply IH; [|exact Hy].
    intros x Hx. apply in_app_iff. left. apply Hseen. exact Hx.
Qed.

(** X10: the list [remove_duplicates] returns is the input with some
    elements left out, in the input's order, and every input element is
    either in it or was looked up (itself when hashable, as a frozenset
    when it is an unhashable set) and found equal to an element of it. *)
Theorem remove_duplicates_keeps_one_of_each (data : list V) :
  let result := fst (remove_duplicates veq hashable as_frozenset data) in
  subseq result data /\
  forall y, In y data ->
    In y result \/
    exists x key, In x result /\ probe hashable as_frozenset y = Some key /\
                  veq x key = true.
Proof.
  cbv zeta. split.
  - destruct (remove_duplicates_loop_subseq data [] [] []) as (kept & H & Hs & _).
    unfold remove_duplicates. rewrite H. exact Hs.
  - intros y Hy. apply (remove_duplicates_loop_covers data [] [] []); [intros x []|exact Hy].
Qed.

(** X11: [remove_duplicates] keeps every element that the membership test
    cannot look up (unhashable and not a set), in order and with
    repetitions, and logs exactly one warning for each unhashable element of
    the returned list and nothing else; an unhashable set that is found
    among the earlier elements is left out without a warning. *)
Theorem remove_duplicates_keeps_unhashable (data : list V) :
  let r := remove_duplicates veq hashable as_frozenset data in
  filter (unprobed hashable as_frozenset) (fst r)
  = filter (unprobed hashable as_frozenset) data /\
  snd r = repeat (LWARNING, unhashable_warning) (length (filter (fun x => negb (hashable x)) (fst r))).
Proof.
  cbv zeta. unfold remove_duplicates.
  destruct (remove_duplicates_loop_subseq data [] [] []) as (kept & -> & _ & Hf).
  split; [exact Hf | reflexivity].
Qed.

End RemoveDuplicates.

(** A set that comes after a frozenset with the same elements is left out
    and nothing is logged; a list is kept each time, with a warning. *)
Lemma remove_duplicates_on_sample_values :
  remove_duplicates sample_eq sample_hashable sample_as_frozenset
    [SFrozenset [1]; SSet [1]; SSet [2]; SList [3]; SList [3]; SInt 1; SInt 1]
  = ([SFrozenset [1]; SSet [2]; SList [3]; SList [3]; SInt 1],
     [(LWARNING, unhashable_warning); (LWARNING, unhashable_warning);
      (LWARNING, unhashable_warning)]).
Proof. reflexivity. Qed.

(** ** [group_data_by_attribute] *)

Section GroupData.

Local Open Scope list_scope.

Context {V D : Type}.
Variable veq : V -> V -> bool.
Variable hashable : V -> bool.
Variable as_frozenset : V -> option V.
Variable item_get : D -> string -> option V.
Variable attribute : string.

Lemma dict_mem_keys {X : Type} (d : list (V * X)) (k : V) :
  dict_mem veq d k = set_mem veq (map fst d) k.
Proof.
  unfold set_mem. induction d as [|[k' x] d IH]; [reflexivity|].
  cbn [dict_mem map fst existsb]. now rewrite IH.
Qed.

Lemma dict_set_absent {X : Type} (d : list (V * X)) (k : V) (x : X) :
  dict_mem veq d k = false -> dict_set veq d k x = d ++ [(k, x)].
Proof.
  induction d as [|[k' y] d IH]; [reflexivity|].
  cbn [dict_mem dict_set]. intros H. apply orb_false_iff in H.
  destruct H as [-> H]. now rewrite IH.
Qed.

Lemma dict_update_keys {X : Type} (d : list (V * X)) (k : V) (f : X -> X) :
  map fst (dict_update veq d k f) = map fst d.
Proof.
  induction d as [|[k' y] d IH]; [reflexivity|].
  cbn [dict_update]. destruct (veq k' k); cbn [map fst]; [reflexivity | now rewrite IH].
Qed.

Lemma group_loop_keys (data : list D) (raise_key_error : bool) :
  forall grouped groups log,
    group_loop veq hashable item_get data attribute raise_key_error grouped
    = inr groups ->
    map fst groups
    = fst (remove_duplicates_loop veq hashable as_frozenset
             (present_keys item_get attribute data)
             (map fst grouped) (map fst grouped) log).
Proof.
  induction data as [|item rest IH]; intros grouped groups log H;
    cbn [group_loop present_keys] in *.
  - inversion H. reflexivity.
  - destruct (item_get item attribute) as [key|].
    + cbn [remove_duplicates_loop]. unfold set_contains, set_add, probe.
      destruct (hashable key); [|discriminate].
      rewrite <- dict_mem_keys.
      destruct (dict_mem veq grouped key) eqn:Hm; cbn [negb] in *.
      * rewrite (IH _ _ log H), dict_update_keys. reflexivity.
      * rewrite (IH _ _ log H), dict_update_keys, (dict_set_absent _ _ _ Hm), map_app.
        reflexivity.
    + destruct raise_key_error; [discriminate|]. apply IH. exact H.
Qed.

(** X12: when [group_data_by_attribute] returns, the keys of the
    dictionary, in its order, are the keys of the items that have the
    attribute with the repetitions removed as [remove_duplicates] removes
    them: the order of first occurrence. *)
Theorem group_keys_in_first_occurrence_order
  (data : list D) (raise_key_error : bool) (groups : list (V * list D)) :
  group_data_by_attribute veq hashable item_get data attribute raise_key_error
  = inr groups ->
  map fst groups
  = fst (remove_duplicates veq hashable as_frozenset
           (present_keys item_get attribute data)).
Proof.
  unfold group_data_by_attribute, remove_duplicates. destruct data as [|item rest].
  - intros H. inversion H. reflexivity.
  - intros H. apply (group_loop_keys _ _ _ _ [] H).
Qed.

Lemma group_loop_skips (data : list D) :
  forall grouped,
    group_loop veq hashable item_get data attribute false grouped
    = group_loop veq hashable item_get
        (filter (has_attribute item_get attribute) data) attribute false grouped.
Proof.
  induction data as [|item rest IH]; intros grouped; [reflexivity|].
  cbn [filter]. unfold has_attribute at 1. cbn [group_loop].
  destruct (item_get item attribute) as [key|] eqn:E.
  - cbn [group_loop]. rewrite E. destruct (hashable key); [apply IH | reflexivity].
  - apply IH.
Qed.

Lemma group_data_as_loop (data : list D) (raise_key_error : bool) :
  group_data_by_attribute veq hashable item_get data attribute raise_key_error
  = group_loop veq hashable item_get data attribute raise_key_error [].
Proof. destruct data; reflexivity. Qed.

(** X13: without [raise_key_error], the items that lack the attribute are
    skipped: the result, a dictionary or the [TypeError] of an unhashable
    key, is the one for the list without these items. *)
Theorem group_skips_items_without_attribute (data : list D) :
  group_data_by_attribute veq hashable item_get data attribute false
  = group_data_by_attribute veq hashable item_get
      (filter (has_attribute item_get attribute) data) attribute false.
Proof. rewrite !group_data_as_loop. apply group_loop_skips. Qed.

Lemma group_loop_raise_flag (data : list D) :
  forall grouped,
    forallb (has_attribute item_get attribute) data = true ->
    group_loop veq hashable item_get data attribute true grouped
    = group_loop veq hashable item_get data attribute false grouped.
Proof.
  induction data as [|item rest IH]; intros grouped H; [reflexivity|].
  cbn [forallb] in H. apply andb_true_iff in H. destruct H as [Hi Hr].
  unfold has_attribute in Hi. cbn [group_loop].
  destruct (item_get item attribute) as [key|]; [|discriminate].
  destruct (hashable key); [apply IH; exact Hr | reflexivity].
Qed.

Lemma group_loop_errors (data : list D) (raise_key_error : bool) :
  forall grouped e,
    group_loop veq hashable item_get data attribute raise_key_error grouped = inl e ->
    (e = KeyError /\ raise_key_error = true /\
     exists item, In item data /\ item_get item attribute = None) \/
    (e = TypeError /\
     exists item key, In item data /\ item_get item attribute = Some key /\
                      hashable key = false).
Proof.
  induction data as [|item rest IH]; intros grouped e H; [discriminate|].
  cbn [group_loop] in H.
  destruct (item_get item attribute) as [key|] eqn:E.
  - destruct (hashable key) eqn:Hh.
    + apply IH in H. destruct H as [(He & Hr & x & Hx & Hn) | (He & x & k & Hx & Hk)].
      * left. repeat split; try assumption. exists x. split; [right; exact Hx | exact Hn].
      * right. split; [exact He|]. exists x, k. split; [right; exact Hx | exact Hk].
    + inversion H. right. split; [reflexivity|]. exists item, key.
      split; [left; reflexivity | split; assumption].
  - destruct raise_key_error.
    + inversion H. left. repeat split. exists item. split; [left; reflexivity | exact E].
    + apply IH in H. destruct H as [(He & Hr & _) | (He & x & k & Hx & Hk)];
        [discriminate|].
      right. split; [exact He|]. exists x, k. split; [right; exact Hx | exact Hk].
Qed.

(** X14: [group_data_by_attribute] fails in two ways only: with [KeyError],
    only under [raise_key_error] and only when an item lacks the attribute,
    and with [TypeError], only when an item's key is unhashable.  When every
    key is hashable it fails exactly when [raise_key_error] is set and an
    item lacks the attribute, and when every item has the attribute the
    flag makes no difference. *)
Theorem group_data_failures (data : list D) (raise_key_error : bool) :
  (forall e,
     group_data_by_attribute veq hashable item_get data attribute raise_key_error
     = inl e ->
     (e = KeyError /\ raise_key_error = true /\
      exists item, In item data /\ item_get item attribute = None) \/
     (e = TypeError /\
      exists item key, In item data /\ item_get item attribute = Some key /\
                       hashable key = false)) /\
  (forallb (has_attribute item_get attribute) data = true ->
   group_data_by_attribute veq hashable item_get data attribute true
   = group_data_by_attribute veq hashable item_get data attribute false) /\
  ((forall item key, In item data -> item_get item attribute = Some key ->
                     hashable key = true) ->
   forallb (has_attribute item_get attribute) data = false ->
   group_data_by_attribute veq hashable item_get data attribute true = inl KeyError).
Proof.
  split; [|split].
  - intros e. rewrite group_data_as_loop. apply group_loop_errors.
  - rewrite !group_data_as_loop. apply group_loop_raise_flag.
  - rewrite group_data_as_loop. generalize (@nil (V * list D)).
    induction data as [|item rest IH]; intros grouped Hh Hf; [discriminate|].
    cbn [forallb] in Hf. cbn [group_loop]. unfold has_attribute in Hf at 1.
    destruct (item_get item attribute) as [key|] eqn:E; [|reflexivity].
    rewrite (Hh item key (or_introl eq_refl) E).
    apply IH; [|exact Hf].
    intros x k Hx. apply Hh. right. exact Hx.
Qed.

End GroupData.

Lemma group_keys_in_first_occurrence_order_witness :
  exists groups,
    group_data_by_attribute Z.eqb (fun _ => true) assoc_get example_rows "team" false
    = inr groups /\
    map fst groups = [1; 2] /\
    map fst groups
    = fst (remove_duplicates Z.eqb (fun _ => true) (fun _ => None)
             (present_keys assoc_get "team" example_rows)).
Proof.
  eexists. split; [vm_compute; reflexivity|]. split; [reflexivity|].
  apply (group_keys_in_first_occurrence_order Z.eqb (fun _ => true) (fun _ => None)
           assoc_get "team" example_rows false).
  vm_compute; reflexivity.
Defined.

Section GroupContents.

Local Open Scope list_scope.

Context {V D : Type}.
Variable veq : V -> V -> bool.
Variable hashable : V -> bool.
Variable item_get : D -> string -> option V.
Variable attribute : string.

Hypothesis veq_sym : forall x y, veq x y = true -> veq y x = true.
Hypothesis veq_trans : forall x y z, veq x y = true -> veq y z = true -> veq x z = true.










End GroupContents.


(** ** [process_data] *)

Section ProcessData.

Local Open Scope list_scope.

Context {V : Type}.
Variable is_none : V -> bool.

Lemma process_data_loop_spec (data : list V) (g : V -> V) :
  forall processed,
    process_data_loop is_none data g processed
    = processed ++ filter (fun x => negb (is_none x)) (map g data).
Proof.
  induction data as [|item rest IH]; intros processed;
    cbn [process_data_loop map filter]; [now rewrite app_nil_r|].
  destruct (negb (is_none (g item))); rewrite IH; [|reflexivity].
  now rewrite <- app_assoc.
Qed.

(** X16: [process_data] raises [TypeError] for a transform that is neither
    [None] nor callable, whatever the data; otherwise it returns the
    transformed items (the items themselves without a transform, or with a
    callable whose truth value is false) that are not [None], in input
    order: no [None] in the result, and never more elements than the
    input. *)
Theorem process_data_spec (data : list V) (transform_func : transform_arg) :
  match transform_func with
  | TransformOther => process_data is_none data transform_func = inl TypeError
  | _ =>
      exists r,
        process_data is_none data transform_func = inr r /\
        r = filter (fun x => negb (is_none x))
              (map (applied_function transform_func) data) /\
        Forall (fun x => is_none x = false) r /\
        (length r <= length data)%nat
  end.
Proof.
  assert (H : forall g : V -> V,
             let r := filter (fun x => negb (is_none x)) (map g data) in
             Forall (fun x => is_none x = false) r /\ (length r <= length data)%nat).
  { intros g r. split.
    - apply Forall_forall. intros x Hx. apply filter_In in Hx.
      destruct Hx as [_ Hx]. now apply negb_true_iff in Hx.
    - subst r. rewrite <- (length_map g data). apply filter_length_le. }
  destruct transform_func as [|truth f|]; [| |reflexivity].
  - eexists. split; [reflexivity|]. cbn [process_data applied_function].
    rewrite process_data_loop_spec. cbn [app]. split; [reflexivity|]. apply H.
  - eexists. split; [reflexivity|]. cbn [process_data].
    rewrite process_data_loop_spec. cbn [app].
    destruct truth; cbn [applied_function]; (split; [reflexivity | apply H]).
Qed.

(** X17: two passes of [process_data] with callables [f] and then [g] give
    what one pass gives with the callable that applies [f] and, unless the
    result is [None], [g]; and a pass without a transform over a result of
    [process_data] returns it unchanged. *)
Theorem process_data_compose (data r1 : list V) (t : transform_arg) (f g : V -> V) :
  process_data is_none data t = inr r1 ->
  process_data is_none r1 TransformNone = inr r1 /\
  (t = TransformCallable true f ->
   process_data is_none r1 (TransformCallable true g)
   = process_data is_none data
       (TransformCallable true (fun x => if is_none (f x) then f x else g (f x)))).
Proof.
  intros H1.
  assert (Hr : exists h : V -> V,
             r1 = filter (fun x => negb (is_none x)) (map h data) /\
             (t = TransformCallable true f -> h = f)).
  { destruct t as [|truth f0|]; cbn [process_data] in H1; [| |discriminate];
      rewrite process_data_loop_spec in H1; inversion H1; eexists;
        (split; [reflexivity|]); [discriminate|].
    intros E. inversion E. reflexivity. }
  destruct Hr as (h & -> & Hh). split.
  - cbn [process_data]. rewrite process_data_loop_spec. cbn [app]. f_equal.
    rewrite map_id. clear. induction (map h data) as [|x l IH]; [reflexivity|].
    cbn [filter]. destruct (negb (is_none x)) eqn:E; cbn [filter];
      [rewrite E, IH; reflexivity | exact IH].
  - intros E. rewrite (Hh E). clear. cbn [process_data].
    rewrite !process_data_loop_spec. cbn [app]. f_equal.
    induction data as [|x l IH]; [reflexivity|].
    cbn [map filter]. destruct (is_none (f x)) eqn:E; cbn [negb map filter].
    + rewrite E. cbn [negb]. exact IH.
    + rewrite IH. reflexivity.
Qed.

End ProcessData.

Lemma process_data_compose_witness :
  let f := fun x : option Z => match x with Some 2 => None | _ => x end in
  let g := fun x : option Z => option_map (Z.mul 10) x in
  process_data opt_is_none [Some 1; Some 3] TransformNone = inr [Some 1; Some 3] /\
  (TransformCallable true f = TransformCallable true f ->
   process_data opt_is_none [Some 1; Some 3] (TransformCallable true g)
   = process_data opt_is_none [Some 1; Some 2; None; Some 3]
       (TransformCallable true
          (fun x => if opt_is_none (f x) then f x else g (f x)))).
Proof.
  cbv zeta.
  apply (process_data_compose opt_is_none [Some 1; Some 2; None; Some 3]
           [Some 1; Some 3]
           (TransformCallable true
              (fun x : option Z => match x with Some 2 => None | _ => x end))).
  reflexivity.
Defined.

(** ** [validate_email] *)

Lemma append_eq_empty (s1 s2 : string) : s1 ++ s2 = "" -> s1 = "" /\ s2 = "".
Proof. destruct s1; [intros; split; [reflexivity | assumption] | discriminate]. Qed.

Lemma nullable_spec (r : regex) : nullable r = true <-> lang r "".
Proof.
  split.
  - induction r; cbn [nullable]; intros H; try discriminate.
    + constructor.
    + apply andb_true_iff in H. destruct H as [H1 H2].
      apply (lang_cat r1 r2 "" ""); auto.
    + apply orb_true_iff in H. destruct H as [H|H];
        [apply lang_alt_l | apply lang_alt_r]; auto.
    + constructor.
  - intros H. remember "" as s eqn:Es. induction H; cbn [nullable];
      try reflexivity; try discriminate.
    + apply append_eq_empty in Es. destruct Es as [-> ->].
      rewrite IHlang1, IHlang2; reflexivity.
    + rewrite IHlang; [reflexivity | exact Es].
    + rewrite IHlang; [apply orb_true_r | exact Es].
Qed.

Lemma deriv_sound (c : ascii) (r : regex) :
  forall s, lang (deriv c r) s -> lang r (String c s).
Proof.
  induction r; cbn [deriv]; intros s0 H.
  - inversion H.
  - inversion H.
  - destruct (p c) eqn:E; inversion H; subst. now constructor.
  - assert (Hcat : lang (Cat (deriv c r1) r2) s0 -> lang (Cat r1 r2) (String c s0)).
    { intros Hc. inversion Hc; subst.
      apply (lang_cat r1 r2 (String c s1) s2); auto. }
    destruct (nullable r1) eqn:En; [|auto].
    inversion H; subst; [auto|].
    apply (lang_cat r1 r2 "" (String c s0)); [apply nullable_spec; exact En | auto].
  - inversion H; subst; [apply lang_alt_l | apply lang_alt_r]; auto.
  - inversion H; subst.
    apply (lang_star_cons r (String c s1) s2); auto.
Qed.

Lemma deriv_complete (c : ascii) (r : regex) (s : string) :
  lang r (String c s) -> lang (deriv c r) s.
Proof.
  intros H. remember (String c s) as cs eqn:E. revert c s E.
  induction H; intros c0 s0 E; cbn [deriv]; try discriminate.
  - inversion E; subst. rewrite H. constructor.
  - destruct s1 as [|c1 s1']; cbn [append] in E.
    + subst s2. assert (Hn : nullable r1 = true) by (apply nullable_spec; exact H).
      rewrite Hn. apply lang_alt_r. apply IHlang2. reflexivity.
    + inversion E; subst.
      assert (Hc : lang (Cat (deriv c0 r1) r2) (s1' ++ s2))
        by (constructor; [apply IHlang1; reflexivity | exact H0]).
      destruct (nullable r1); [apply lang_alt_l|]; exact Hc.
  - apply lang_alt_l. apply IHlang. exact E.
  - apply lang_alt_r. apply IHlang. exact E.
  - destruct s1 as [|c1 s1']; cbn [append] in E.
    + apply (IHlang2 c0 s0 E).
    + inversion E; subst. constructor; [apply IHlang1; reflexivity | exact H0].
Qed.

(** The matcher decides membership in the language. *)
Lemma re_fullmatch_spec (s : string) :
  forall r, re_fullmatch r s = true <-> lang r s.
Proof.
  induction s as [|c s IH]; intros r; cbn [re_fullmatch].
  - apply nullable_spec.
  - rewrite IH. split; [apply deriv_sound | apply deriv_complete].
Qed.

Lemma lang_class_inv (p : ascii -> bool) (s : string) :
  lang (Class p) s -> exists c, s = String c "" /\ p c = true.
Proof. intros H. inversion H; subst. eexists; split; [reflexivity | assumption]. Qed.

Lemma lang_cat_inv (r1 r2 : regex) (s : string) :
  lang (Cat r1 r2) s -> exists s1 s2, s = s1 ++ s2 /\ lang r1 s1 /\ lang r2 s2.
Proof. intros H. inversion H; subst. eexists _, _; repeat split; assumption. Qed.

Lemma lang_alt_inv (r1 r2 : regex) (s : string) :
  lang (Alt r1 r2) s -> lang r1 s \/ lang r2 s.
Proof. intros H. inversion H; subst; [left | right]; assumption. Qed.

Lemma lang_eps_inv (s : string) : lang Eps s -> s = "".
Proof. intros H. inversion H. reflexivity. Qed.

Lemma lang_star_class (p : ascii -> bool) (s : string) :
  lang (Star (Class p)) s <-> string_forallb p s = true.
Proof.
  split.
  - intros H. remember (Star (Class p)) as r eqn:E.
    induction H; try discriminate; [reflexivity|].
    inversion E; subst. apply lang_class_inv in H. destruct H as (c & -> & Hc).
    cbn [append string_forallb]. rewrite Hc. apply IHlang2. reflexivity.
  - induction s as [|c s IH]; cbn [string_forallb]; intros H; [constructor|].
    apply andb_true_iff in H. destruct H as [Hc Hs].
    apply (lang_star_cons (Class p) (String c "") s); [now constructor | auto].
Qed.

Lemma lang_plus_class (p : ascii -> bool) (s : string) :
  lang (plus (Class p)) s <-> s <> "" /\ string_forallb p s = true.
Proof.
  unfold plus. split.
  - intros H. apply lang_cat_inv in H. destruct H as (s1 & s2 & -> & H1 & H2).
    apply lang_class_inv in H1. destruct H1 as (c & -> & Hc).
    apply lang_star_class in H2. cbn [append string_forallb].
    rewrite Hc, H2. split; [discriminate | reflexivity].
  - intros [Hne H]. destruct s as [|c s]; [congruence|].
    cbn [string_forallb] in H. apply andb_true_iff in H. destruct H as [Hc Hs].
    apply (lang_cat (Class p) (Star (Class p)) (String c "") s);
      [now constructor | now apply lang_star_class].
Qed.

Lemma validate_email_lang (s : string) :
  validate_email (Some s) = true <-> lang email_regex s.
Proof. apply re_fullmatch_spec. Qed.

Lemma validate_email_shape (s : string) :
  validate_email (Some s) = true <-> email_shape s.
Proof.
  rewrite validate_email_lang.
  unfold email_regex, email_body, email_shape. split.
  - intros H.
    apply lang_cat_inv in H. destruct H as (sb & e & -> & Hb & He).
    apply lang_cat_inv in Hb. destruct Hb as (l & s1 & -> & Hl & H1).
    apply lang_cat_inv in H1. destruct H1 as (a & s2 & -> & Ha & H2).
    apply lang_cat_inv in H2. destruct H2 as (d & s3 & -> & Hd & H3).
    apply lang_cat_inv in H3. destruct H3 as (dot & s4 & -> & Hdot & H4).
    apply lang_cat_inv in H4. destruct H4 as (t1 & s5 & -> & Ht1 & H5).
    apply lang_cat_inv in H5. destruct H5 as (t2 & t3 & -> & Ht2 & Ht3).
    apply lang_plus_class in Hl. destruct Hl as [Hl1 Hl2].
    apply lang_plus_class in Hd. destruct Hd as [Hd1 Hd2].
    apply lang_class_inv in Ha. destruct Ha as (ca & -> & Hca).
    apply lang_class_inv in Hdot. destruct Hdot as (cd & -> & Hcd).
    apply lang_class_inv in Ht1. destruct Ht1 as (c1 & -> & Hc1).
    apply lang_class_inv in Ht2. destruct Ht2 as (c2 & -> & Hc2).
    apply lang_star_class in Ht3.
    apply Ascii.eqb_eq in Hca. apply Ascii.eqb_eq in Hcd. subst ca cd.
    exists l, d, (String c1 (String c2 t3)), e.
    split; [|split; [exact Hl1 | split; [exact Hl2 | split; [exact Hd1 |
             split; [exact Hd2 | split; [cbn; lia | split]]]]]].
    + rewrite !str_app_assoc. reflexivity.
    + cbn [string_forallb]. rewrite Hc1, Hc2, Ht3. reflexivity.
    + apply lang_alt_inv in He. destruct He as [He|He].
      * apply lang_eps_inv in He. left. exact He.
      * apply lang_class_inv in He. destruct He as (c & -> & Hc).
        apply Ascii.eqb_eq in Hc. subst c. right. reflexivity.
  - intros (l & d & t & e & -> & Hl1 & Hl2 & Hd1 & Hd2 & Ht1 & Ht2 & He).
    destruct t as [|c1 [|c2 t3]]; cbn [String.length] in Ht1; try lia.
    cbn [string_forallb] in Ht2.
    apply andb_true_iff in Ht2. destruct Ht2 as [Hc1 Ht2].
    apply andb_true_iff in Ht2. destruct Ht2 as [Hc2 Ht3].
    replace (l ++ "@" ++ d ++ "." ++ String c1 (String c2 t3) ++ e)
      with ((l ++ "@" ++ d ++ "." ++ String c1 "" ++ String c2 "" ++ t3) ++ e)
      by (rewrite !str_app_assoc; reflexivity).
    constructor.
    + constructor; [apply lang_plus_class; split; assumption|].
      apply (lang_cat _ _ "@"); [now constructor|].
      constructor; [apply lang_plus_class; split; assumption|].
      apply (lang_cat _ _ "."); [now constructor|].
      constructor; [now constructor|].
      constructor; [now constructor|].
      apply lang_star_class. exact Ht3.
    + destruct He as [-> | ->]; [apply lang_alt_l; constructor|].
      apply lang_alt_r. now constructor.
Qed.

(** X20: [validate_email] accepts a text exactly when it is a non-empty
    run of the local-part characters, an [@], a non-empty run of the
    domain characters, a dot and at least two letters, followed by nothing
    or by one newline; an argument that is not a text is rejected. *)
Theorem validate_email_spec (s : string) :
  validate_email None = false /\
  (validate_email (Some s) = true <-> email_shape s).
Proof.
  split; [reflexivity | apply validate_email_shape].
Qed.

Lemma count_char_app (a : ascii) (s t : string) :
  count_char a (s ++ t) = (count_char a s + count_char a t)%nat.
Proof.
  induction s as [|c s IH]; cbn [append count_char]; [reflexivity|].
  rewrite IH. lia.
Qed.

Lemma count_char_outside (p : ascii -> bool) (a : ascii) (s : string) :
  p a = false -> string_forallb p s = true -> count_char a s = O.
Proof.
  intros Ha. induction s as [|c s IH]; cbn [string_forallb count_char];
    [reflexivity|].
  intros H. apply andb_true_iff in H. destruct H as [Hc Hs].
  destruct (Ascii.eqb_spec c a) as [->|_]; [congruence|]. rewrite (IH Hs). reflexivity.
Qed.

(** X21: a text that [validate_email] accepts contains exactly one [@] and
    no blank. *)
Theorem validate_email_one_at_sign (s : string) :
  validate_email (Some s) = true ->
  count_char "@" s = 1%nat /\ count_char " " s = O.
Proof.
  intros H. apply validate_email_shape in H.
  destruct H as (l & d & t & e & -> & _ & Hl & _ & Hd & _ & Ht & He).
  rewrite !count_char_app.
  rewrite (count_char_outside is_local_char "@" l eq_refl Hl).
  rewrite (count_char_outside is_domain_char "@" d eq_refl Hd).
  rewrite (count_char_outside is_letter "@" t eq_refl Ht).
  rewrite (count_char_outside is_local_char " " l eq_refl Hl).
  rewrite (count_char_outside is_domain_char " " d eq_refl Hd).
  rewrite (count_char_outside is_letter " " t eq_refl Ht).
  destruct He as [-> | ->]; split; reflexivity.
Qed.

Lemma validate_email_one_at_sign_witness :
  count_char "@" "first.last+tag@mail.example.org" = 1%nat /\
  count_char " " "first.last+tag@mail.example.org" = O.
Proof.
  apply (validate_email_one_at_sign "first.last+tag@mail.example.org").
  reflexivity.
Defined.

(** X22: an accepted text that does not end in a newline is still accepted
    with one newline appended, because [$] also holds just before a final
    newline; an accepted text that ends in a newline is an accepted text
    followed by that newline. *)
Theorem validate_email_trailing_newline (s : string) :
  validate_email (Some s) = true ->
  (validate_email (Some (s ++ nl)) = true /\ forall s0, s <> s0 ++ nl) \/
  (exists s0, s = s0 ++ nl /\ validate_email (Some s0) = true).
Proof.
  intros H. apply validate_email_shape in H.
  destruct H as (l & d & t & e & -> & Hl1 & Hl2 & Hd1 & Hd2 & Ht1 & Ht2 & [-> | ->]).
  - left. split.
    + apply validate_email_shape. exists l, d, t, nl.
      repeat split; try assumption; [|right; reflexivity].
      rewrite !str_app_assoc. reflexivity.
    + intros s0 E.
      assert (Hc : string_forallb (fun c => negb (Ascii.eqb c (ascii_of_nat 10)))
                     (l ++ "@" ++ d ++ "." ++ t ++ "") = true).
      { clear E. rewrite append_empty_r.
        assert (Happ : forall p a b, string_forallb p a = true ->
                                     string_forallb p b = true ->
                                     string_forallb p (a ++ b) = true).
        { intros p a b Ha Hb. induction a as [|c a IH]; [exact Hb|].
          cbn [append string_forallb] in *. apply andb_true_iff in Ha.
          destruct Ha as [-> Ha]. apply IH. exact Ha. }
        assert (Hweak : forall (p q : ascii -> bool) a,
                   (forall c, p c = true -> q c = true) ->
                   string_forallb p a = true -> string_forallb q a = true).
        { intros p q a Hpq. induction a as [|c a IH]; [reflexivity|].
          cbn [string_forallb]. intros Ha. apply andb_true_iff in Ha.
          destruct Ha as [Hc Ha]. rewrite (Hpq c Hc), (IH Ha). reflexivity. }
        assert (Hnl : forall p : ascii -> bool, p (ascii_of_nat 10) = false ->
                   forall c, p c = true ->
                             negb (Ascii.eqb c (ascii_of_nat 10)) = true).
        { intros p Hp c Hc. destruct (Ascii.eqb_spec c (ascii_of_nat 10)) as [->|_];
            [congruence | reflexivity]. }
        apply Happ; [apply (Hweak is_local_char); [apply Hnl; reflexivity | exact Hl2]|].
        apply (Happ _ "@"); [reflexivity|].
        apply Happ; [apply (Hweak is_domain_char); [apply Hnl; reflexivity | exact Hd2]|].
        apply (Happ _ "."); [reflexivity|].
        apply (Hweak is_letter); [apply Hnl; reflexivity | exact Ht2]. }
      rewrite E in Hc. clear - Hc.
      induction s0 as [|c s0 IH]; cbn [append string_forallb] in Hc.
      * discriminate.
      * apply andb_true_iff in Hc. destruct Hc as [_ Hc]. apply IH. exact Hc.
  - right. exists (l ++ "@" ++ d ++ "." ++ t). split.
    + rewrite !str_app_assoc. reflexivity.
    + apply validate_email_shape. exists l, d, t, "".
      repeat split; try assumption; [|left; reflexivity].
      rewrite append_empty_r. reflexivity.
Qed.

Lemma validate_email_trailing_newline_witness :
  (validate_email (Some ("a@b.co" ++ nl)) = true /\ forall s0, "a@b.co" <> s0 ++ nl) \/
  (exists s0, "a@b.co" = s0 ++ nl /\ validate_email (Some s0) = true).
Proof.
  apply (validate_email_trailing_newline "a@b.co"). reflexivity.
Defined.
